(** * pyHexDump: the checksum command

    A shallow embedding of [calc_checksum] from
    [src/pyHexDump/cmd_checksum.py], the bit-serial CRC over a byte range
    of a firmware image, and the properties its specification states;
    then of the command [_cmd_checksum] around it and of the report
    macros of [src/pyHexDump/macros.py], with further properties read
    off the code.

    Python integers are unbounded and their bit operations act on the
    infinite two's complement representation; [Z] with [Z.land], [Z.lor],
    [Z.lxor] and [Z.shiftl] behaves the same way.  Python strings are
    lists of characters.  The Python float that counts the passes of the
    loop is a binary64 value; it always holds a whole number and is kept
    as that number, with the rounding of each operation written out.  The
    effects of the function, reading the image through the memory
    accessor, raising an exception and not returning at all, are kept in
    a small monad. *)

From Stdlib Require Import ZArith List Ascii String Bool Lia DecimalString.
From Stdlib Require Import Strings.Byte.
From Stdlib Require Floats.SpecFloat.
Import ListNotations.

Local Open Scope Z_scope.

(** ** Effects: the read log and exceptions *)

(** The exceptions the function body itself can raise: the [ValueError]
    of [int(text, 2)] and the [OverflowError] of the true division of
    two integers whose quotient is too large for a float. *)
Inductive exn : Type :=
| ValueError
| OverflowError.

(** A call returns a value, raises an exception or, when its loop never
    exits, does neither. *)
Inductive outcome (A : Type) : Type :=
| Returned (a : A)
| Raised (e : exn)
| Diverges.

Arguments Returned {A} a.
Arguments Raised {A} e.
Arguments Diverges {A}.

(** A computation threads the list of the addresses handed to
    [mem_access.get_value] so far, oldest first. *)
Definition M (A : Type) : Type := list Z -> outcome A * list Z.

Definition ret {A : Type} (a : A) : M A :=
  fun log => (Returned a, log).

Definition raise {A : Type} (e : exn) : M A :=
  fun log => (Raised e, log).

Definition diverge {A : Type} : M A :=
  fun log => (Diverges, log).

(** An operation that reads nothing. *)
Definition lift {A : Type} (o : outcome A) : M A :=
  fun log => (o, log).

Definition bind {A B : Type} (m : M A) (k : A -> M B) : M B :=
  fun log =>
    match m log with
    | (Returned a, log') => k a log'
    | (Raised e, log') => (Raised e, log')
    | (Diverges, log') => (Diverges, log')
    end.

Notation "x <- m ;; k" := (bind m (fun x => k))
  (at level 61, m at next level, right associativity).

(** What a computation gives back, and what it read, when started on an
    empty log. *)
Definition result {A : Type} (m : M A) : outcome A := fst (m []).
Definition reads {A : Type} (m : M A) : list Z := snd (m []).

(** ** The Python string operations used for bit reflection *)

Module Py.

Definition str : Type := list ascii.

(** Binary digits of a positive number, most significant first. *)
Fixpoint bin_digits (p : positive) (acc : str) : str :=
  match p with
  | xH => "1"%char :: acc
  | xO p' => bin_digits p' ("0"%char :: acc)
  | xI p' => bin_digits p' ("1"%char :: acc)
  end.

Definition bin_abs (n : Z) : str :=
  match n with
  | Z0 => ["0"%char]
  | Zpos p => bin_digits p []
  | Zneg p => bin_digits p []
  end.

Definition zfill (width : nat) (s : str) : str :=
  repeat "0"%char (width - List.length s)%nat ++ s.

(** [f"{n:0{width}b}"]: the digits are padded with zeros on the left up
    to [width] characters; a negative number gets its sign first and
    the sign counts for the width. *)
Definition format_0b (width : nat) (n : Z) : str :=
  if n <? 0 then "-"%char :: zfill (width - 1)%nat (bin_abs n)
  else zfill width (bin_abs n).

(** [s[::-1]] *)
Definition reversed (s : str) : str := rev s.

Definition digit2 (c : ascii) : option Z :=
  if Ascii.eqb c "0" then Some 0
  else if Ascii.eqb c "1" then Some 1
  else None.

Fixpoint parse_digits (acc : Z) (s : str) : option Z :=
  match s with
  | [] => Some acc
  | c :: s' =>
      match digit2 c with
      | Some d => parse_digits (2 * acc + d) s'
      | None => None
      end
  end.

(** [int(s, 2)] on the strings that reach it here: a reversed
    [format_0b] text is made of binary digits, followed by the sign
    when the number was negative.  Python rejects a trailing sign and
    the empty string with [ValueError]. *)
Definition int_base2 (s : str) : outcome Z :=
  match s with
  | [] => Raised ValueError
  | _ =>
      match parse_digits 0 s with
      | Some v => Returned v
      | None => Raised ValueError
      end
  end.

(** A character that is a binary digit. *)
Definition is_bit (c : ascii) : Prop := c = "0"%char \/ c = "1"%char.

End Py.

(** [tmp = f"{word:0{width}b}"; word = int(tmp[::-1], 2)], lines 98-99 and
    114-115. *)
Definition reflect (width : Z) (word : Z) : M Z :=
  let tmp := Py.format_0b (Z.to_nat width) word in
  lift (Py.int_base2 (Py.reversed tmp)).

(** ** The collaborators of the checksum command *)

(** The members of the status enumeration [Ret] that [cmd_checksum.py]
    refers to (the misspelt name is the source's).  The enumeration is
    declared in [pyHexDump.constants]; [_cmd_checksum] tells the two
    members apart with [ret_status == Ret.OK]. *)
Inductive Ret : Type :=
| OK
| ERROR_CRC_CACLULATION.

(** Modelled from the spec: the memory image ([IntelHex] object) is "an
    addressable, byte-indexed read-only view over loaded binary data",
    immutable during one computation, and every address of the range is
    assumed readable. *)
Definition MemoryImage : Type := Z -> byte.

(** Modelled from the spec: the accessor classes of [pyHexDump.mem_access]
    are not part of the sources at hand.  [calc_checksum] uses two
    methods of its accessor: [get_size()], the word size in bytes, and
    [get_value(binary_data, address)], the word stored at an address. *)
Record MemAccess : Type := {
  get_size : positive;
  get_value : MemoryImage -> Z -> Z
}.

(** Modelled from the spec: [MemAccessU8], whose "word size is fixed at
    1 byte" and which "reads single bytes at given addresses". *)
Definition MemAccessU8 : MemAccess := {|
  get_size := 1%positive;
  get_value := fun binary_data address => Z.of_N (Byte.to_N (binary_data address))
|}.

(** The call [mem_access.get_value(binary_data, address)] as an effect:
    the address is appended to the read log. *)
Definition read (mem_access : MemAccess) (binary_data : MemoryImage)
    (address : Z) : M Z :=
  fun log => (Returned (get_value mem_access binary_data address), log ++ [address]).

(** ** The Python float that counts the passes *)

Module PyFloat.

(** A binary64 value has a significand of 53 bits.  [round_even z] is
    the binary64 value nearest to the whole number [z >= 0], ties going
    to the even significand: up to 2^53 that is [z] itself, above it the
    bits below the 53 leading ones are rounded away.  The value is again
    a whole number. *)
Definition round_even (z : Z) : Z :=
  let e := Z.log2 z in
  if e <? 53 then z
  else
    let shift := e - 52 in
    let q := z / 2 ^ shift in
    let r := z mod 2 ^ shift in
    let half := 2 ^ (shift - 1) in
    let q' := if r <? half then q
              else if half <? r then q + 1
              else if Z.even q then q else q + 1 in
    q' * 2 ^ shift.

Definition nearest (z : Z) : Z :=
  if z <? 0 then - round_even (- z) else round_even z.

(** The least magnitude that rounds to 2^1024, which binary64 does not
    hold: the midpoint of the largest float 2^1024 - 2^971 and 2^1024. *)
Definition overflow_bound : Z := 2 ^ 1024 - 2 ^ 970.

(** [a / b] for two integers, [b > 0]: the quotient correctly rounded, or
    [OverflowError] ("integer division result too large for a float").
    The float is kept as the whole number it holds; when [b] does not
    divide [a] it holds none, and [calc_checksum] returns before it uses
    the quotient. *)
Definition true_divide (a b : Z) : outcome Z :=
  if overflow_bound * b <=? Z.abs a then Raised OverflowError
  else Returned (nearest (a / b)).

(** [x - 1] for a float [x] holding a whole number: the difference
    correctly rounded. *)
Definition sub_one (x : Z) : Z := nearest (x - 1).

(** The binary64 value [x] of the Standard Library's specification of
    floating point arithmetic as a whole number, for the comparison of
    [nearest] and [sub_one] with that specification. *)
Definition of_spec_float (x : SpecFloat.spec_float) : option Z :=
  match x with
  | SpecFloat.S754_zero _ => Some 0
  | SpecFloat.S754_finite s m e =>
      let v := if 0 <=? e then Z.pos m * 2 ^ e else Z.pos m / 2 ^ (- e) in
      Some (if s then - v else v)
  | _ => None
  end.

Definition to_spec_float (z : Z) : SpecFloat.spec_float :=
  SpecFloat.binary_normalize 53 1024 z 0 false.

End PyFloat.

(** ** [calc_checksum] *)

(** The body of [for _ in range(8)], lines 104-107. *)
Definition shift_xor (msb_mask polynomial crc : Z) : Z :=
  let crc := Z.shiftl crc 1 in
  if negb (Z.land crc msb_mask =? 0) then Z.lxor crc polynomial else crc.

(** The variables the [while] loop updates; [count] is the float. *)
Record loop_state : Type := {
  count : Z;
  offset : Z;
  crc : Z;
  word : Z
}.

Section Loop.

Variable mem_access : MemAccess.
Variable binary_data : MemoryImage.
Variables start_address bit_width msb_mask polynomial : Z.
Variable reverse_input : bool.

(** One pass through the body of [while count > 0], lines 93-109. *)
Definition loop_body (st : loop_state) : M loop_state :=
  let count := PyFloat.sub_one (count st) in
  word <- read mem_access binary_data (start_address + offset st) ;;
  word <- (if reverse_input then reflect 8 word else ret word) ;;
  let crc := Z.lxor (crc st) (Z.shiftl word (bit_width - 8)) in
  let crc := Nat.iter 8 (shift_xor msb_mask polynomial) crc in
  let offset := offset st + Z.pos (get_size mem_access) in
  ret {| count := count; offset := offset; crc := crc; word := word |}.

(** [while count > 0: ...].  The recursion is on a bound for the
    number of passes; running out of it stands for a loop that never
    exits.  [calc_checksum] supplies the length of the range in words.
    Up to 2^53 words the float counts exactly and the loop exits after
    as many passes ([while_loop_exact]); 2^53 + 1 and 2^53 + 2 words
    take 2^53 and 2^53 + 1 passes ([range_passes_edges]); and a float
    from 2^53 + 4 on is left unchanged by the subtraction of 1, so that
    the loop never exits ([stuck_counter_diverges]). *)
Fixpoint while_loop (passes : nat) (st : loop_state) : M loop_state :=
  match passes with
  | O => if count st >? 0 then diverge else ret st
  | S passes' =>
      if count st >? 0 then
        st' <- loop_body st ;;
        while_loop passes' st'
      else ret st
  end.

End Loop.

(** [calc_checksum] with the accessor made a parameter; the source
    binds [mem_access = MemAccessU8()] on its first line.

    [count] is the Python float [(end_address - start_address) /
    mem_access.get_size()] of line 73, computed before the checks; the
    division raises [OverflowError] when the quotient is too large for a
    float.  The float is used only once the range length is known to be
    a multiple of the word size, where it is the whole quotient rounded
    to binary64. *)
Definition calc_checksum_with (mem_access : MemAccess)
    (binary_data : MemoryImage) (start_address end_address : Z)
    (polynomial bit_width seed : Z)
    (reverse_input reverse_output final_xor : bool) : M (Ret * Z) :=
  count <- lift (PyFloat.true_divide (end_address - start_address)
                   (Z.pos (get_size mem_access))) ;;
  if negb (bit_width =? 8) && negb (bit_width =? 16) && negb (bit_width =? 32)
  then ret (ERROR_CRC_CACLULATION, 0)
  else if negb ((end_address - start_address) mod Z.pos (get_size mem_access) =? 0)
  then ret (ERROR_CRC_CACLULATION, 0)
  else
    let bit_width_mask := 2 ^ bit_width - 1 in
    let msb_mask := Z.shiftl 1 bit_width in
    let polynomial := Z.lor (Z.shiftl 1 bit_width) polynomial in
    st <- while_loop mem_access binary_data start_address bit_width msb_mask
            polynomial reverse_input
            (Z.to_nat ((end_address - start_address)
                       / Z.pos (get_size mem_access)))
            {| count := count; offset := 0; crc := seed; word := 0 |} ;;
    let crc := Z.land (crc st) bit_width_mask in
    word <- (if reverse_output then reflect bit_width (word st)
             else ret (word st)) ;;
    let crc := if final_xor then Z.lxor crc bit_width_mask else crc in
    ret (OK, crc).

Definition calc_checksum : MemoryImage -> Z -> Z -> Z -> Z -> Z ->
    bool -> bool -> bool -> M (Ret * Z) :=
  calc_checksum_with MemAccessU8.

(** ** Definitions used to state the properties *)

(** A memory image from a list of bytes stored from address 0 on; every
    other address holds the padding byte [0xFF]. *)
Definition image_of (data : list byte) : MemoryImage :=
  fun address =>
    if address <? 0 then xff
    else nth (Z.to_nat address) data xff.

(** The value [int(tmp[::-1], 2)] gives where it does not raise. *)
Definition reflected (width word : Z) : Z :=
  match result (reflect width word) with
  | Returned v => v
  | _ => 0
  end.

Definition valid_width (bit_width : Z) : Prop :=
  bit_width = 8 \/ bit_width = 16 \/ bit_width = 32.

(** The addresses [start], [start + 1], ... of [n] consecutive bytes. *)
Fixpoint addresses (start : Z) (n : nat) : list Z :=
  match n with
  | O => []
  | S n' => start :: addresses (start + 1) n'
  end.

(** What the float counter makes of a bound on the passes and a start
    value: the number of passes made, and whether the loop has exited. *)
Fixpoint float_passes (bound : nat) (count : Z) : nat * bool :=
  match bound with
  | O => (O, negb (count >? 0))
  | S bound' =>
      if count >? 0 then
        let r := float_passes bound' (PyFloat.sub_one count) in
        (S (fst r), snd r)
      else (O, true)
  end.

(** Whether line 73 raises for a range, with the word size 1. *)
Definition range_overflows (start_address end_address : Z) : bool :=
  PyFloat.overflow_bound <=? Z.abs (end_address - start_address).

(** The passes of the loop over a range, with the word size 1. *)
Definition range_passes (start_address end_address : Z) : nat * bool :=
  float_passes (Z.to_nat (end_address - start_address))
    (PyFloat.nearest (end_address - start_address)).

(** The bytes of the range [[start_address, end_address)], in ascending
    order of address. *)
Definition range_addresses (start_address end_address : Z) : list Z :=
  addresses start_address (Z.to_nat (end_address - start_address)).

Definition range_bytes (binary_data : MemoryImage)
    (start_address end_address : Z) : list Z :=
  map (get_value MemAccessU8 binary_data)
    (range_addresses start_address end_address).

(** What one pass of the loop does to [crc] when it reads the byte [b]. *)
Definition feed (bit_width msb_mask polynomial : Z) (reverse_input : bool)
    (crc b : Z) : Z :=
  let word := if reverse_input then reflected 8 b else b in
  Nat.iter 8 (shift_xor msb_mask polynomial)
    (Z.lxor crc (Z.shiftl word (bit_width - 8))).

(** The register after the bytes have been fed in, before masking. *)
Definition register (polynomial bit_width seed : Z) (reverse_input : bool)
    (bytes : list Z) : Z :=
  fold_left
    (feed bit_width (Z.shiftl 1 bit_width)
       (Z.lor (Z.shiftl 1 bit_width) polynomial) reverse_input)
    bytes seed.

(** Lines 111 and 117-118. *)
Definition finish (bit_width : Z) (final_xor : bool) (crc : Z) : Z :=
  let crc := Z.land crc (2 ^ bit_width - 1) in
  if final_xor then Z.lxor crc (2 ^ bit_width - 1) else crc.

(** Two registers agree when their [n] low bits are the same. *)
Definition agree (n a b : Z) : Prop :=
  forall i, 0 <= i < n -> Z.testbit a i = Z.testbit b i.

(** ** Text formatting for the command and the macros *)

Module PyFormat.

(** The digit characters of the presentation type [X]. *)
Definition hex_digit (d : Z) : ascii :=
  nth (Z.to_nat d) (list_ascii_of_string "0123456789ABCDEF") "0"%char.

(** Hexadecimal digits of a number that is not negative, most
    significant first.  The recursion is on a bound for the number of
    digits; [hex_abs] supplies one more than the binary logarithm. *)
Fixpoint hex_digits (bound : nat) (n : Z) (acc : Py.str) : Py.str :=
  match bound with
  | O => acc
  | S bound' =>
      if n <? 16 then hex_digit n :: acc
      else hex_digits bound' (n / 16) (hex_digit (n mod 16) :: acc)
  end.

Definition hex_abs (n : Z) : Py.str :=
  let m := Z.abs n in
  hex_digits (S (Z.to_nat (Z.log2 m))) m [].

(** [format(n, "0{width}X")]: upper case hexadecimal digits padded with
    zeros on the left up to [width] characters, the sign of a negative
    number first and counted in the width. *)
Definition format_0X (width : nat) (n : Z) : Py.str :=
  if n <? 0 then "-"%char :: Py.zfill (width - 1)%nat (hex_abs n)
  else Py.zfill width (hex_abs n).

(** [str(n)] for an integer. *)
Definition str_of_int (n : Z) : string :=
  NilZero.string_of_int (Z.to_int n).

(** [fmt.format(value)] for the format strings of the shape
    ["{:0<width>X}"] and an integer [value]; [None] stands for every
    other format string, which this development does not interpret. *)
Definition str_format (fmt : string) (value : Z) : option string :=
  let n := String.length fmt in
  if String.prefix "{:0" fmt && (5 <=? n)%nat
     && String.eqb (substring (n - 2) 2 fmt) "X}"
  then
    match NilEmpty.uint_of_string (substring 3 (n - 5) fmt) with
    | Some width =>
        Some (string_of_list_ascii (format_0X (Nat.of_uint width) value))
    | None => None
    end
  else None.

End PyFormat.

(** ** [_cmd_checksum] *)

(** A status as the command handles it: a member of [Ret] that
    [cmd_checksum.py] names, or some other member of the enumeration,
    which only the loader reports. *)
Inductive status : Type :=
| Member (r : Ret)
| OtherMember (name : string).

(** [ret_status == Ret.OK] *)
Definition is_ok (ret_status : status) : bool :=
  match ret_status with
  | Member OK => true
  | _ => false
  end.

(** One call [common_print_value(value, value_format)].  The function
    belongs to [pyHexDump.common], which is not among the sources at
    hand; the console is the list of the calls made, oldest first. *)
Record print_call : Type := {
  printed_value : Z;
  printed_format : string
}.

Definition common_print_value (value : Z) (value_format : string)
    (console : list print_call) : list print_call :=
  console ++ [{| printed_value := value; printed_format := value_format |}].

(** Lines 143-154.  [common_load_binary_file] is a parameter: it gives a
    status and, when the status is OK, the image.  The second test
    [ret_status == Ret.OK] of the source can only succeed when the
    first did, [checksum] being bound only then, so it is nested here. *)
Definition _cmd_checksum
    (common_load_binary_file : string -> status * MemoryImage)
    (binary_file : string) (start_address end_address : Z)
    (polynomial bit_width seed : Z)
    (reverse_input reverse_output final_xor : bool)
    (console : list print_call) : M (status * list print_call) :=
  let (ret_status, intel_hex) := common_load_binary_file binary_file in
  if is_ok ret_status then
    r <- calc_checksum intel_hex start_address end_address polynomial
           bit_width seed reverse_input reverse_output final_xor ;;
    let (ret_status, checksum) := r in
    if is_ok (Member ret_status) then
      let value_width := bit_width / 4 in
      let value_format :=
        ("{:0" ++ PyFormat.str_of_int value_width ++ "X}")%string in
      ret (Member ret_status, common_print_value checksum value_format console)
    else ret (Member ret_status, console)
  else ret (ret_status, console).

(** ** The report macros of [macros.py] *)

(** [_macros_compare_values], lines 43-59.  [format_value] is the bound
    method [value_format.format], which may raise an exception of some
    type [E]; the set value is formatted first. *)
Definition _macros_compare_values {E : Type} (format_value : Z -> E + string)
    (set_value actual_value : Z) : E + string :=
  if set_value =? actual_value then inr "Ok"%string
  else
    match format_value set_value with
    | inl e => inl e
    | inr set_text =>
        match format_value actual_value with
        | inl e => inl e
        | inr actual_text =>
            inr ("Not Ok (Set: " ++ set_text ++ ", "
                 ++ "Actual: " ++ actual_text ++ ")")%string
        end
    end.

(** The default [value_format="{:02X}"]. *)
Definition default_value_format (value : Z) : exn + string :=
  match PyFormat.str_format "{:02X}" value with
  | Some text => inr text
  | None => inl ValueError
  end.

(** [_macros_convert_middle_to_little_endian], lines 61-79. *)
Definition _macros_convert_middle_to_little_endian (value : Z) : Z :=
  let result := Z.land (Z.shiftl value 16) 0xFFFFFFFF in
  let result := Z.lor result (Z.land (Z.shiftr value 16) 0xFFFFFFFF) in
  result.

(** [range(start, stop)] and [value in range(start, stop)] for an
    integer [value]. *)
Record py_range : Type := {
  range_start : Z;
  range_stop : Z
}.

Definition in_range (value : Z) (r : py_range) : bool :=
  (range_start r <=? value) && (value <? range_stop r).

(** [_macros_check_stadabm], lines 81-100 (the spelling of the messages
    is the source's). *)
Definition _macros_check_stadabm (value : Z) : string :=
  let segment_8_pflash :=
    {| range_start := 0x80000000; range_stop := 0x811FFFFF |} in
  let segment_10_pflash :=
    {| range_start := 0xA0000000; range_stop := 0xA11FFFFF |} in
  if in_range value segment_8_pflash || in_range value segment_10_pflash then
    if negb (value mod 4 =? 0)
    then "Not Ok (STADABM is not word alligned)"%string
    else "Ok"%string
  else "Not Ok (STADABM is not in the PFLASH)"%string.

(** ** Further definitions used to state the properties *)

(** The byte with the value [n], for [n] in [[0, 255]]. *)
Definition byte_of_Z (n : Z) : byte :=
  match Byte.of_N (Z.to_N n) with
  | Some b => b
  | None => x00
  end.

(** The image whose every byte is the bit reflection of the byte of
    [binary_data] at the same address. *)
Definition reflect_image (binary_data : MemoryImage) : MemoryImage :=
  fun address =>
    byte_of_Z (reflected 8 (get_value MemAccessU8 binary_data address)).

(** The image whose every byte is the bitwise XOR of the bytes of the
    two images at the same address. *)
Definition xor_image (image1 image2 : MemoryImage) : MemoryImage :=
  fun address =>
    byte_of_Z (Z.lxor (get_value MemAccessU8 image1 address)
                 (get_value MemAccessU8 image2 address)).

(** * Properties *)

(** ** Test vectors *)

Example format_0x80 :
  Py.format_0b 8 0x80 = list_ascii_of_string "10000000".
Proof. reflexivity. Qed.

Example format_minus1 :
  Py.format_0b 8 (-1) = list_ascii_of_string "-0000001".
Proof. reflexivity. Qed.

Example reflect_0x80 : result (reflect 8 0x80) = Returned 0x01.
Proof. reflexivity. Qed.

Example reflect_wide : result (reflect 16 0x01) = Returned 0x8000.
Proof. reflexivity. Qed.

Example reflect_negative : result (reflect 8 (-1)) = Raised ValueError.
Proof. reflexivity. Qed.

Example scenario_a :
  calc_checksum (image_of [x00]) 0 1 0x07 8 0 false false false []
  = (Returned (OK, 0x00), [0]).
Proof. reflexivity. Qed.

Example crc32_mpeg2_check :
  result (calc_checksum
            (image_of [x31; x32; x33; x34; x35; x36; x37; x38; x39])
            0 9 0x04C11DB7 32 0xFFFFFFFF false false false)
  = Returned (OK, 0x0376E6E7).
Proof. vm_compute. reflexivity. Qed.

Example reads_in_ascending_order :
  reads (calc_checksum (image_of [x31; x32; x33; x34]) 1 4 0x04C11DB7 32 0
           true true true)
  = [1; 2; 3].
Proof. vm_compute. reflexivity. Qed.

Example backwards_range_reads_nothing :
  calc_checksum (image_of [x31; x32; x33; x34]) 3 1 0x07 8 0x5A
    false false false []
  = (Returned (OK, 0x5A), []).
Proof. vm_compute. reflexivity. Qed.

Example crc16_xmodem_check :
  calc_checksum
    (image_of [x31; x32; x33; x34; x35; x36; x37; x38; x39])
    0 9 0x1021 16 0 false false false []
  = (Returned (OK, 0x31C3), [0; 1; 2; 3; 4; 5; 6; 7; 8]).
Proof. vm_compute. reflexivity. Qed.

(** ** Bit reflection never raises on a word that is not negative *)

Module PyFacts.
Import Py.

Lemma bin_digits_bits p : forall acc,
  Forall is_bit acc -> Forall is_bit (bin_digits p acc).
Proof.
  induction p as [p IH | p IH | ]; intros acc Hacc; cbn [bin_digits].
  - apply IH. constructor; [right; reflexivity | assumption].
  - apply IH. constructor; [left; reflexivity | assumption].
  - constructor; [right; reflexivity | assumption].
Qed.

Lemma bin_digits_cons p : forall acc, bin_digits p acc <> [].
Proof.
  induction p as [p IH | p IH | ]; intros acc; cbn [bin_digits];
    try apply IH; discriminate.
Qed.

Lemma bin_abs_bits n : Forall is_bit (bin_abs n).
Proof.
  destruct n; cbn [bin_abs].
  - constructor; [left; reflexivity | constructor].
  - apply bin_digits_bits. constructor.
  - apply bin_digits_bits. constructor.
Qed.

Lemma bin_abs_cons n : bin_abs n <> [].
Proof.
  destruct n; cbn [bin_abs]; try apply bin_digits_cons; discriminate.
Qed.

Lemma zfill_bits width s : Forall is_bit s -> Forall is_bit (zfill width s).
Proof.
  intros Hs. unfold zfill. apply Forall_app. split; [ | assumption].
  apply Forall_forall. intros c Hc. apply repeat_spec in Hc. left; exact Hc.
Qed.

Lemma zfill_cons width s : s <> [] -> zfill width s <> [].
Proof.
  intros Hs Hnil. unfold zfill in Hnil.
  apply app_eq_nil in Hnil. destruct Hnil as [_ Hnil]. contradiction.
Qed.

Lemma parse_digits_bits s : forall acc,
  Forall is_bit s -> 0 <= acc ->
  exists v, parse_digits acc s = Some v /\ 0 <= v.
Proof.
  induction s as [ | c s IH]; intros acc Hs Hacc; cbn [parse_digits].
  - exists acc. split; [reflexivity | assumption].
  - inversion Hs as [ | c' s' Hc Hs']; subst.
    destruct Hc as [-> | ->].
    + change (digit2 "0") with (Some 0). apply IH; [assumption | lia].
    + change (digit2 "1") with (Some 1). apply IH; [assumption | lia].
Qed.

Lemma int_base2_reversed_format width n :
  0 <= n ->
  exists v, int_base2 (reversed (format_0b width n)) = Returned v /\ 0 <= v.
Proof.
  intros Hn. unfold format_0b.
  destruct (n <? 0) eqn:Hneg; [apply Z.ltb_lt in Hneg; lia | ].
  assert (Hbits : Forall is_bit (reversed (zfill width (bin_abs n)))).
  { unfold reversed. apply Forall_rev. apply zfill_bits, bin_abs_bits. }
  assert (Hcons : reversed (zfill width (bin_abs n)) <> []).
  { unfold reversed. intros Hnil.
    apply (f_equal (@rev ascii)) in Hnil. rewrite rev_involutive in Hnil.
    revert Hnil. apply zfill_cons, bin_abs_cons. }
  destruct (parse_digits_bits _ 0 Hbits (Z.le_refl 0)) as [v [Hv Hv0]].
  exists v. split; [ | assumption].
  unfold int_base2. rewrite Hv.
  destruct (reversed (zfill width (bin_abs n))); [contradiction | reflexivity].
Qed.

End PyFacts.

Lemma reflect_nonneg width word log :
  0 <= word ->
  reflect width word log = (Returned (reflected width word), log)
  /\ 0 <= reflected width word.
Proof.
  intros Hword.
  destruct (PyFacts.int_base2_reversed_format (Z.to_nat width) word Hword)
    as [v [Hv Hv0]].
  unfold reflected, result, reflect. rewrite Hv. cbn. split; [reflexivity | assumption].
Qed.

Lemma get_value_U8_nonneg binary_data address :
  0 <= get_value MemAccessU8 binary_data address.
Proof. cbn. apply N2Z.is_nonneg. Qed.

(** ** The float counter *)

Lemma round_even_exact z : 0 <= z <= 2 ^ 53 -> PyFloat.round_even z = z.
Proof.
  intros Hz. destruct (Z.eq_dec z (2 ^ 53)) as [-> | Hne]; [reflexivity | ].
  unfold PyFloat.round_even.
  assert (Hlog : Z.log2 z < 53).
  { destruct (Z.eq_dec z 0) as [-> | Hz0]; [reflexivity | ].
    apply Z.log2_lt_pow2; lia. }
  destruct (Z.ltb_spec (Z.log2 z) 53); [reflexivity | lia].
Qed.

Lemma round_even_nonneg z : 0 <= z -> 0 <= PyFloat.round_even z.
Proof.
  intros Hz. unfold PyFloat.round_even.
  destruct (Z.ltb_spec (Z.log2 z) 53) as [ | Hlog]; [assumption | ].
  set (shift := Z.log2 z - 52).
  assert (Hpow : 0 < 2 ^ shift) by (apply Z.pow_pos_nonneg; lia).
  assert (Hq : 0 <= z / 2 ^ shift) by (apply Z.div_pos; lia).
  apply Z.mul_nonneg_nonneg; [ | lia].
  destruct (z mod 2 ^ shift <? 2 ^ (shift - 1)); [assumption | ].
  destruct (2 ^ (shift - 1) <? z mod 2 ^ shift); [lia | ].
  destruct (Z.even (z / 2 ^ shift)); lia.
Qed.

Lemma nearest_exact z : Z.abs z <= 2 ^ 53 -> PyFloat.nearest z = z.
Proof.
  intros Hz. unfold PyFloat.nearest.
  destruct (Z.ltb_spec z 0).
  - rewrite round_even_exact by lia. lia.
  - apply round_even_exact. lia.
Qed.

Lemma nearest_nonpos z : z <= 0 -> PyFloat.nearest z <= 0.
Proof.
  intros Hz. unfold PyFloat.nearest.
  destruct (Z.ltb_spec z 0).
  - pose proof (round_even_nonneg (- z) ltac:(lia)). lia.
  - replace z with 0 by lia. discriminate.
Qed.

Lemma float_passes_le bound : forall count,
  (fst (float_passes bound count) <= bound)%nat.
Proof.
  induction bound as [ | bound IH]; intros count; cbn [float_passes].
  - cbn. lia.
  - destruct (count >? 0); cbn [fst]; [ | lia].
    pose proof (IH (PyFloat.sub_one count)). lia.
Qed.

(** Up to 2^53 the float counts exactly. *)
Lemma float_passes_exact bound : forall count,
  0 <= count <= 2 ^ 53 ->
  (Z.to_nat count <= bound)%nat ->
  float_passes bound count = (Z.to_nat count, true).
Proof.
  induction bound as [ | bound IH]; intros count Hcount Hbound;
    cbn [float_passes].
  - replace count with 0 by lia. reflexivity.
  - destruct (Z.gtb_spec count 0) as [Hpos | Hzero].
    + unfold PyFloat.sub_one. rewrite nearest_exact by lia.
      rewrite IH by lia. cbn [fst snd]. f_equal. lia.
    + replace count with 0 by lia. reflexivity.
Qed.

Lemma float_passes_nonpos bound count :
  count <= 0 -> float_passes bound count = (O, true).
Proof.
  intros Hcount. destruct bound as [ | bound]; cbn [float_passes];
    destruct (Z.gtb_spec count 0); try lia; reflexivity.
Qed.

(** A float that subtracting 1 leaves unchanged never lets the loop
    exit. *)
Lemma float_passes_stuck bound : forall count,
  0 < count ->
  PyFloat.sub_one count = count ->
  float_passes bound count = (bound, false).
Proof.
  induction bound as [ | bound IH]; intros count Hpos Hstuck;
    cbn [float_passes]; destruct (Z.gtb_spec count 0); try lia.
  - reflexivity.
  - rewrite Hstuck, IH by assumption. reflexivity.
Qed.

Lemma range_passes_exact start_address end_address :
  Z.abs (end_address - start_address) <= 2 ^ 53 ->
  range_passes start_address end_address
  = (Z.to_nat (end_address - start_address), true).
Proof.
  intros Hrange. unfold range_passes. rewrite nearest_exact by assumption.
  destruct (Z.le_gt_cases 0 (end_address - start_address)).
  - apply float_passes_exact; lia.
  - rewrite float_passes_nonpos by lia.
    replace (Z.to_nat (end_address - start_address)) with O by lia.
    reflexivity.
Qed.

Lemma range_passes_edges start_address :
  range_passes start_address (start_address + (2 ^ 53 + 1))
  = (Z.to_nat (2 ^ 53), true)
  /\ range_passes start_address (start_address + (2 ^ 53 + 2))
     = (S (Z.to_nat (2 ^ 53)), true).
Proof.
  unfold range_passes. split.
  - replace (start_address + (2 ^ 53 + 1) - start_address) with (2 ^ 53 + 1)
      by lia.
    replace (PyFloat.nearest (2 ^ 53 + 1)) with (2 ^ 53)
      by (vm_compute; reflexivity).
    apply float_passes_exact; lia.
  - replace (start_address + (2 ^ 53 + 2) - start_address) with (2 ^ 53 + 2)
      by lia.
    replace (PyFloat.nearest (2 ^ 53 + 2)) with (2 ^ 53 + 2)
      by (vm_compute; reflexivity).
    replace (Z.to_nat (2 ^ 53 + 2)) with (S (Z.to_nat (2 ^ 53 + 1))) by lia.
    cbn [float_passes].
    replace (2 ^ 53 + 2 >? 0) with true by (vm_compute; reflexivity).
    replace (PyFloat.sub_one (2 ^ 53 + 2)) with (2 ^ 53)
      by (vm_compute; reflexivity).
    rewrite float_passes_exact by lia. reflexivity.
Qed.

Lemma range_passes_backwards start_address end_address :
  end_address <= start_address ->
  range_passes start_address end_address = (O, true).
Proof.
  intros Hle. unfold range_passes. apply float_passes_nonpos.
  apply nearest_nonpos. lia.
Qed.

Lemma range_passes_le start_address end_address :
  (fst (range_passes start_address end_address)
   <= Z.to_nat (end_address - start_address))%nat.
Proof. unfold range_passes. apply float_passes_le. Qed.

Lemma exact_range_no_overflow start_address end_address :
  Z.abs (end_address - start_address) <= 2 ^ 53 ->
  range_overflows start_address end_address = false.
Proof.
  intros Hrange. unfold range_overflows.
  apply Z.leb_gt.
  apply Z.le_lt_trans with (m := 2 ^ 53); [assumption | reflexivity].
Qed.

(** ** The loop as a fold over the bytes it reads *)

Section LoopFacts.

Variable binary_data : MemoryImage.
Variables start_address bit_width msb_mask polynomial : Z.
Variable reverse_input : bool.

Lemma loop_body_U8 st log :
  exists w, 0 <= w /\
    loop_body MemAccessU8 binary_data start_address bit_width msb_mask
      polynomial reverse_input st log
    = (Returned {| count := PyFloat.sub_one (count st);
                   offset := offset st + 1;
                   crc := feed bit_width msb_mask polynomial reverse_input
                            (crc st)
                            (get_value MemAccessU8 binary_data
                               (start_address + offset st));
                   word := w |},
       log ++ [start_address + offset st]).
Proof.
  pose proof (get_value_U8_nonneg binary_data (start_address + offset st)) as Hb.
  unfold loop_body, feed, bind, read.
  destruct reverse_input.
  - destruct (reflect_nonneg 8 _ (log ++ [start_address + offset st]) Hb)
      as [Hr Hr0].
    rewrite Hr. eexists. split; [exact Hr0 | reflexivity].
  - eexists. split; [exact Hb | reflexivity].
Qed.

Lemma while_loop_U8 passes : forall st log,
  0 <= word st ->
  (snd (float_passes passes (count st)) = true ->
   exists st',
     while_loop MemAccessU8 binary_data start_address bit_width msb_mask
       polynomial reverse_input passes st log
     = (Returned st',
        log ++ addresses (start_address + offset st)
                 (fst (float_passes passes (count st))))
     /\ crc st' = fold_left
                    (feed bit_width msb_mask polynomial reverse_input)
                    (map (get_value MemAccessU8 binary_data)
                       (addresses (start_address + offset st)
                          (fst (float_passes passes (count st)))))
                    (crc st)
     /\ 0 <= word st'
     /\ (count st' >? 0) = false)
  /\ (snd (float_passes passes (count st)) = false ->
      while_loop MemAccessU8 binary_data start_address bit_width msb_mask
        polynomial reverse_input passes st log
      = (Diverges,
         log ++ addresses (start_address + offset st)
                  (fst (float_passes passes (count st))))).
Proof.
  induction passes as [ | passes IH]; intros st log Hword;
    cbn [while_loop float_passes].
  - destruct (count st >? 0) eqn:Hgt; cbn [fst snd negb addresses map fold_left];
      rewrite app_nil_r; split; try discriminate.
    + intros _. reflexivity.
    + intros _. exists st. unfold ret. repeat split; assumption.
  - destruct (count st >? 0) eqn:Hgt; cbn [fst snd].
    + unfold bind at 1 2.
      destruct (loop_body_U8 st log) as [w [Hw Hbody]]. rewrite Hbody.
      match goal with
      | |- context [while_loop _ _ _ _ _ _ _ _ ?s ?l] =>
          destruct (IH s l) as [Hexit Hloop]; [cbn [word]; exact Hw | ]
      end.
      cbn [count offset crc] in Hexit, Hloop.
      cbn [addresses map fold_left].
      rewrite <- app_assoc, Z.add_assoc in Hexit, Hloop.
      cbn [app] in Hexit, Hloop.
      split; assumption.
    + cbn [addresses map fold_left]. rewrite app_nil_r.
      split; [ | discriminate].
      intros _. exists st. unfold ret. repeat split; assumption.
Qed.

End LoopFacts.

(** For a range of at most 2^53 bytes the bound that [calc_checksum]
    supplies never cuts the loop short: it exits, with the loop condition
    false, after one pass per byte. *)
Lemma while_loop_exact binary_data start_address bit_width msb_mask
    polynomial reverse_input st log :
  0 <= word st ->
  0 <= count st <= 2 ^ 53 ->
  exists st',
    while_loop MemAccessU8 binary_data start_address bit_width msb_mask
      polynomial reverse_input (Z.to_nat (count st)) st log
    = (Returned st',
       log ++ addresses (start_address + offset st) (Z.to_nat (count st)))
    /\ (count st' >? 0) = false.
Proof.
  intros Hword Hcount.
  destruct (while_loop_U8 binary_data start_address bit_width msb_mask
              polynomial reverse_input (Z.to_nat (count st)) st log Hword)
    as [Hexit _].
  rewrite float_passes_exact in Hexit by lia. cbn [fst snd] in Hexit.
  destruct (Hexit eq_refl) as [st' [Hrun [_ [_ Hcond]]]].
  exists st'. split; assumption.
Qed.

(** Once subtracting 1 leaves the float unchanged, the loop does not
    exit, whatever the bound. *)
Lemma stuck_counter_diverges binary_data start_address bit_width msb_mask
    polynomial reverse_input passes st log :
  0 <= word st ->
  0 < count st ->
  PyFloat.sub_one (count st) = count st ->
  fst (while_loop MemAccessU8 binary_data start_address bit_width msb_mask
         polynomial reverse_input passes st log)
  = Diverges.
Proof.
  intros Hword Hpos Hstuck.
  destruct (while_loop_U8 binary_data start_address bit_width msb_mask
              polynomial reverse_input passes st log Hword)
    as [_ Hloop].
  rewrite float_passes_stuck in Hloop by assumption. cbn [fst snd] in Hloop.
  rewrite (Hloop eq_refl). reflexivity.
Qed.

(** ** [calc_checksum] in closed form *)

Lemma width_guard_valid bit_width :
  valid_width bit_width ->
  negb (bit_width =? 8) && negb (bit_width =? 16) && negb (bit_width =? 32)
  = false.
Proof. intros [-> | [-> | ->]]; reflexivity. Qed.

Lemma width_guard_invalid bit_width :
  ~ valid_width bit_width ->
  negb (bit_width =? 8) && negb (bit_width =? 16) && negb (bit_width =? 32)
  = true.
Proof.
  intros Hbad. unfold valid_width in Hbad.
  destruct (Z.eqb_spec bit_width 8); [tauto | ].
  destruct (Z.eqb_spec bit_width 16); [tauto | ].
  destruct (Z.eqb_spec bit_width 32); [tauto | reflexivity].
Qed.

Lemma true_divide_U8 start_address end_address :
  PyFloat.true_divide (end_address - start_address)
    (Z.pos (get_size MemAccessU8))
  = if range_overflows start_address end_address then Raised OverflowError
    else Returned (PyFloat.nearest (end_address - start_address)).
Proof.
  unfold PyFloat.true_divide, range_overflows. cbn [get_size MemAccessU8].
  rewrite Z.mul_1_r, Z.div_1_r. reflexivity.
Qed.

(** Line 73 raises for a range too long for a float, before the width is
    looked at and before any byte is read. *)
Lemma calc_checksum_overflow binary_data start_address end_address
    polynomial bit_width seed reverse_input reverse_output final_xor log :
  range_overflows start_address end_address = true ->
  calc_checksum binary_data start_address end_address polynomial bit_width
    seed reverse_input reverse_output final_xor log
  = (Raised OverflowError, log).
Proof.
  intros Hover. unfold calc_checksum, calc_checksum_with.
  rewrite true_divide_U8, Hover. reflexivity.
Qed.

Lemma calc_checksum_invalid binary_data start_address end_address
    polynomial bit_width seed reverse_input reverse_output final_xor log :
  range_overflows start_address end_address = false ->
  ~ valid_width bit_width ->
  calc_checksum binary_data start_address end_address polynomial bit_width
    seed reverse_input reverse_output final_xor log
  = (Returned (ERROR_CRC_CACLULATION, 0), log).
Proof.
  intros Hover Hbad. unfold calc_checksum, calc_checksum_with.
  rewrite true_divide_U8, Hover. unfold bind, lift.
  rewrite (width_guard_invalid _ Hbad). reflexivity.
Qed.

(** The run for a valid width and a range that does not overflow: the
    float counter decides how many bytes are read and whether the loop
    exits. *)
Lemma calc_checksum_run binary_data start_address end_address
    polynomial bit_width seed reverse_input reverse_output final_xor log :
  range_overflows start_address end_address = false ->
  valid_width bit_width ->
  calc_checksum binary_data start_address end_address polynomial bit_width
    seed reverse_input reverse_output final_xor log
  = ((if snd (range_passes start_address end_address)
      then Returned
             (OK,
              finish bit_width final_xor
                (register polynomial bit_width seed reverse_input
                   (map (get_value MemAccessU8 binary_data)
                      (addresses start_address
                         (fst (range_passes start_address end_address))))))
      else Diverges),
     log ++ addresses start_address
              (fst (range_passes start_address end_address))).
Proof.
  intros Hover Hwidth.
  unfold calc_checksum, calc_checksum_with.
  rewrite true_divide_U8, Hover. unfold bind at 1. unfold lift.
  rewrite (width_guard_valid _ Hwidth).
  cbn [get_size MemAccessU8 andb].
  rewrite Z.mod_1_r, Z.div_1_r. cbn [Z.eqb negb].
  unfold bind at 1.
  match goal with
  | |- context [while_loop ?ma ?d ?s ?w ?m ?p ?r ?n ?st ?l] =>
      destruct (while_loop_U8 d s w m p r n st l (Z.le_refl 0))
        as [Hexit Hloop]
  end.
  cbn [count offset crc] in Hexit, Hloop.
  rewrite Z.add_0_r in Hexit, Hloop.
  fold (range_passes start_address end_address) in Hexit, Hloop.
  destruct (snd (range_passes start_address end_address)).
  - destruct (Hexit eq_refl) as [st' [Hrun [Hcrc [Hword _]]]].
    rewrite Hrun. unfold bind.
    destruct reverse_output.
    + destruct (reflect_nonneg bit_width (word st')
                  (log ++ addresses start_address
                            (fst (range_passes start_address end_address)))
                  Hword)
        as [Hout _].
      rewrite Hout. unfold ret, finish, register. rewrite Hcrc. reflexivity.
    + unfold ret, finish, register. rewrite Hcrc. reflexivity.
  - rewrite (Hloop eq_refl). reflexivity.
Qed.

(** For a range of at most 2^53 bytes, the closed form of the result. *)
Lemma calc_checksum_valid binary_data start_address end_address
    polynomial bit_width seed reverse_input reverse_output final_xor log :
  Z.abs (end_address - start_address) <= 2 ^ 53 ->
  valid_width bit_width ->
  calc_checksum binary_data start_address end_address polynomial bit_width
    seed reverse_input reverse_output final_xor log
  = (Returned
       (OK,
        finish bit_width final_xor
          (register polynomial bit_width seed reverse_input
             (range_bytes binary_data start_address end_address))),
     log ++ range_addresses start_address end_address).
Proof.
  intros Hrange Hwidth.
  rewrite calc_checksum_run
    by (try apply exact_range_no_overflow; assumption).
  rewrite range_passes_exact by assumption. reflexivity.
Qed.

(** ** Bit-level facts about the register *)

Lemma mask_is_ones n : 2 ^ n - 1 = Z.ones n.
Proof. rewrite Z.ones_equiv. apply Z.sub_1_r. Qed.

Lemma finish_range bit_width final_xor crc :
  0 <= bit_width ->
  0 <= finish bit_width final_xor crc <= 2 ^ bit_width - 1.
Proof.
  intros Hw. unfold finish. rewrite mask_is_ones.
  assert (Hmod : forall x, 0 <= Z.land x (Z.ones bit_width) <= Z.ones bit_width).
  { intros x. rewrite Z.land_ones by assumption.
    rewrite <- mask_is_ones.
    pose proof (Z.mod_pos_bound x (2 ^ bit_width)
                  (Z.pow_pos_nonneg 2 bit_width ltac:(lia) Hw)). lia. }
  destruct final_xor; [ | apply Hmod].
  replace (Z.lxor (Z.land crc (Z.ones bit_width)) (Z.ones bit_width))
    with (Z.land (Z.lxor crc (Z.ones bit_width)) (Z.ones bit_width));
    [apply Hmod | ].
  apply Z.bits_inj'. intros i Hi.
  rewrite Z.land_spec, !Z.lxor_spec, Z.land_spec.
  destruct (Z.ltb_spec i bit_width).
  - rewrite Z.ones_spec_low by lia.
    rewrite !Bool.andb_true_r. reflexivity.
  - rewrite Z.ones_spec_high by lia.
    rewrite !Bool.andb_false_r. reflexivity.
Qed.

Lemma agree_mod n a : agree n a (a mod 2 ^ n).
Proof.
  intros i Hi. symmetry. apply Z.mod_pow2_bits_low. lia.
Qed.

Lemma agree_mask n a b :
  0 <= n -> agree n a b -> Z.land a (2 ^ n - 1) = Z.land b (2 ^ n - 1).
Proof.
  intros Hn Hab. rewrite mask_is_ones.
  apply Z.bits_inj'. intros i Hi. rewrite !Z.land_spec.
  destruct (Z.ltb_spec i n).
  - rewrite (Hab i) by lia. reflexivity.
  - rewrite Z.ones_spec_high by lia. rewrite !Bool.andb_false_r. reflexivity.
Qed.

(** The test [(crc & msb_mask) != 0] looks at bit [n] alone. *)
Lemma msb_test n x :
  0 <= n -> negb (Z.land x (Z.shiftl 1 n) =? 0) = Z.testbit x n.
Proof.
  intros Hn. rewrite Z.shiftl_1_l.
  destruct (Z.testbit x n) eqn:Hbit.
  - destruct (Z.eqb_spec (Z.land x (2 ^ n)) 0) as [Hz | Hz]; [ | reflexivity].
    apply (f_equal (fun y => Z.testbit y n)) in Hz.
    rewrite Z.land_spec, Hbit, Z.pow2_bits_true, Z.bits_0 in Hz by assumption.
    discriminate.
  - replace (Z.land x (2 ^ n)) with 0; [reflexivity | ].
    symmetry. apply Z.bits_inj'. intros i Hi.
    rewrite Z.land_spec, Z.bits_0.
    destruct (Z.eq_dec i n) as [-> | Hne].
    + rewrite Hbit. reflexivity.
    + rewrite Z.pow2_bits_false by lia. apply Bool.andb_false_r.
Qed.

Section Agreement.

Variables (n polynomial : Z).
Hypothesis n_pos : 0 < n.

Lemma shift_xor_agree a b :
  agree n a b ->
  agree n (shift_xor (Z.shiftl 1 n) polynomial a)
          (shift_xor (Z.shiftl 1 n) polynomial b).
Proof.
  intros Hab. unfold shift_xor.
  rewrite !msb_test by lia.
  rewrite !Z.shiftl_spec by lia.
  rewrite (Hab (n - 1)) by lia.
  assert (Hshift : agree n (Z.shiftl a 1) (Z.shiftl b 1)).
  { intros i Hi. rewrite !Z.shiftl_spec by lia.
    destruct (Z.eq_dec i 0) as [-> | Hne].
    - rewrite !Z.testbit_neg_r by lia. reflexivity.
    - apply Hab. lia. }
  destruct (Z.testbit b (n - 1)); [ | exact Hshift].
  intros i Hi. rewrite !Z.lxor_spec, (Hshift i Hi). reflexivity.
Qed.

Lemma iter_shift_xor_agree k a b :
  agree n a b ->
  agree n (Nat.iter k (shift_xor (Z.shiftl 1 n) polynomial) a)
          (Nat.iter k (shift_xor (Z.shiftl 1 n) polynomial) b).
Proof.
  intros Hab. induction k as [ | k IH]; cbn [Nat.iter nat_rect].
  - exact Hab.
  - apply shift_xor_agree. exact IH.
Qed.

Lemma feed_agree reverse_input a b byte :
  agree n a b ->
  agree n (feed n (Z.shiftl 1 n) polynomial reverse_input a byte)
          (feed n (Z.shiftl 1 n) polynomial reverse_input b byte).
Proof.
  intros Hab. unfold feed. apply iter_shift_xor_agree.
  intros i Hi. rewrite !Z.lxor_spec, (Hab i Hi). reflexivity.
Qed.

Lemma fold_feed_agree reverse_input bytes : forall a b,
  agree n a b ->
  agree n
    (fold_left (feed n (Z.shiftl 1 n) polynomial reverse_input) bytes a)
    (fold_left (feed n (Z.shiftl 1 n) polynomial reverse_input) bytes b).
Proof.
  induction bytes as [ | byte bytes IH]; intros a b Hab; cbn [fold_left].
  - exact Hab.
  - apply IH. apply feed_agree. exact Hab.
Qed.

End Agreement.

Lemma valid_width_pos bit_width : valid_width bit_width -> 0 < bit_width.
Proof. intros [-> | [-> | ->]]; lia. Qed.

Lemma valid_width_dec bit_width :
  {valid_width bit_width} + {~ valid_width bit_width}.
Proof.
  unfold valid_width.
  destruct (Z.eq_dec bit_width 8); [left; tauto | ].
  destruct (Z.eq_dec bit_width 16); [left; tauto | ].
  destruct (Z.eq_dec bit_width 32); [left; tauto | right; tauto].
Defined.

(** ** The float counter against the Standard Library's binary64 *)

Example nearest_is_binary64 :
  forallb
    (fun z =>
       match PyFloat.of_spec_float (PyFloat.to_spec_float z) with
       | Some v => v =? PyFloat.nearest z
       | None => false
       end)
    [0; 1; 255; 2 ^ 52; 2 ^ 53 - 1; 2 ^ 53; 2 ^ 53 + 1; 2 ^ 53 + 2;
     2 ^ 53 + 3; 2 ^ 53 + 4; 2 ^ 53 + 5; 2 ^ 54 - 1; 2 ^ 54 + 2; 2 ^ 54 + 6;
     2 ^ 60 + 12345; 10 ^ 30; 10 ^ 300; 2 ^ 1024 - 2 ^ 970 - 1;
     - 1; - (2 ^ 53 + 1); - (2 ^ 53 + 3); - (10 ^ 30)]
  = true.
Proof. vm_compute. reflexivity. Qed.

Example sub_one_is_binary64 :
  forallb
    (fun z =>
       match PyFloat.of_spec_float
               (SpecFloat.SFsub 53 1024 (PyFloat.to_spec_float z)
                  (PyFloat.to_spec_float 1)) with
       | Some v => v =? PyFloat.sub_one (PyFloat.nearest z)
       | None => false
       end)
    [0; 1; 255; 2 ^ 53; 2 ^ 53 + 2; 2 ^ 53 + 4; 2 ^ 53 + 6; 2 ^ 54;
     2 ^ 54 + 4; 2 ^ 60; 10 ^ 30; 10 ^ 300]
  = true.
Proof. vm_compute. reflexivity. Qed.

Example overflow_bound_is_binary64 :
  PyFloat.of_spec_float (PyFloat.to_spec_float PyFloat.overflow_bound) = None
  /\ PyFloat.of_spec_float
       (PyFloat.to_spec_float (PyFloat.overflow_bound - 1))
     = Some (2 ^ 1024 - 2 ^ 971).
Proof. split; vm_compute; reflexivity. Qed.

Example float_counter_edges :
  PyFloat.nearest (2 ^ 53 + 1) = 2 ^ 53
  /\ PyFloat.sub_one (2 ^ 53 + 2) = 2 ^ 53
  /\ PyFloat.sub_one (2 ^ 53 + 4) = 2 ^ 53 + 4.
Proof. repeat split; vm_compute; reflexivity. Qed.

(** ** The claims *)

(** C1: for every image, range and configuration, [calc_checksum] with
    [reverse_output = True] gives exactly what it gives with
    [reverse_output = False]: the same status and checksum (and the same
    reads).  The reflected word of lines 114-115 is never applied to
    [crc]. *)
Theorem reverse_output_has_no_effect binary_data start_address end_address
    polynomial bit_width seed reverse_input final_xor log :
  calc_checksum binary_data start_address end_address polynomial bit_width
    seed reverse_input true final_xor log
  = calc_checksum binary_data start_address end_address polynomial bit_width
      seed reverse_input false final_xor log.
Proof.
  destruct (range_overflows start_address end_address) eqn:Hover.
  - rewrite !calc_checksum_overflow by assumption. reflexivity.
  - destruct (valid_width_dec bit_width) as [Hwidth | Hwidth].
    + rewrite !calc_checksum_run by assumption. reflexivity.
    + rewrite !calc_checksum_invalid by assumption. reflexivity.
Qed.

(** C2 (scenario B): the single byte 0x01 at address 0, range [0,1),
    polynomial 0x07, width 8, seed 0 and all flags false give status OK
    and checksum 0x07. *)
Theorem scenario_b :
  calc_checksum (image_of [x01]) 0 1 0x07 8 0 false false false []
  = (Returned (OK, 0x07), [0]).
Proof. vm_compute. reflexivity. Qed.

(** C3: for a width in {8, 16, 32} and every range, whenever the call
    with [final_xor = False] returns, the call with [final_xor = True]
    returns the same status and that checksum XOR [2^bit_width - 1]; and
    for a range of at most 2^53 bytes the call does return. *)
Theorem final_xor_complement binary_data start_address end_address
    polynomial bit_width seed reverse_input reverse_output log :
  valid_width bit_width ->
  (forall status checksum log',
     calc_checksum binary_data start_address end_address polynomial
       bit_width seed reverse_input reverse_output false log
     = (Returned (status, checksum), log') ->
     calc_checksum binary_data start_address end_address polynomial
       bit_width seed reverse_input reverse_output true log
     = (Returned (status, Z.lxor checksum (2 ^ bit_width - 1)), log'))
  /\ (Z.abs (end_address - start_address) <= 2 ^ 53 ->
      exists status checksum log',
        calc_checksum binary_data start_address end_address polynomial
          bit_width seed reverse_input reverse_output false log
        = (Returned (status, checksum), log')).
Proof.
  intros Hwidth. split.
  - intros status checksum log'.
    destruct (range_overflows start_address end_address) eqn:Hover.
    + rewrite calc_checksum_overflow by assumption. discriminate.
    + rewrite !calc_checksum_run by assumption.
      destruct (snd (range_passes start_address end_address));
        [ | discriminate].
      intros Hrun. injection Hrun as <- <- <-. reflexivity.
  - intros Hrange. rewrite calc_checksum_valid by assumption.
    do 3 eexists. reflexivity.
Qed.

Lemma final_xor_complement_witness :
  valid_width 16
  /\ exists status checksum log',
       calc_checksum (image_of [x31; x32; x33]) 0 3 0x1021 16 0xFFFF
         false false false []
       = (Returned (status, checksum), log')
       /\ calc_checksum (image_of [x31; x32; x33]) 0 3 0x1021 16 0xFFFF
            false false true []
          = (Returned (status, Z.lxor checksum (2 ^ 16 - 1)), log').
Proof.
  assert (Hwidth : valid_width 16) by (right; left; reflexivity).
  split; [exact Hwidth | ].
  destruct (final_xor_complement (image_of [x31; x32; x33]) 0 3 0x1021 16
              0xFFFF false false [] Hwidth) as [Hxor Hreturns].
  destruct (Hreturns ltac:(discriminate)) as [status [checksum [log' Hrun]]].
  exists status, checksum, log'.
  split; [exact Hrun | apply Hxor; exact Hrun].
Defined.

(** C4: the claim fails for a range too long for a float: the true
    division of line 73 comes before the width guard of lines 76-78, and
    for [end_address - start_address = 10^400] with the width 12 it
    raises [OverflowError] instead of the error status being returned. *)
Theorem invalid_width_overflow_raises :
  calc_checksum (image_of [x01; x02]) 0 (10 ^ 400) 0x07 12 0
    false false false []
  = (Raised OverflowError, []).
Proof. vm_compute. reflexivity. Qed.

(** C5: for a width in {8, 16, 32} and every range, every checksum that
    [calc_checksum] returns lies in [0, 2^bit_width - 1]; and for a range
    of at most 2^53 bytes the call does return. *)
Theorem checksum_range binary_data start_address end_address polynomial
    bit_width seed reverse_input reverse_output final_xor log :
  valid_width bit_width ->
  (forall status checksum log',
     calc_checksum binary_data start_address end_address polynomial
       bit_width seed reverse_input reverse_output final_xor log
     = (Returned (status, checksum), log') ->
     0 <= checksum <= 2 ^ bit_width - 1)
  /\ (Z.abs (end_address - start_address) <= 2 ^ 53 ->
      exists status checksum log',
        calc_checksum binary_data start_address end_address polynomial
          bit_width seed reverse_input reverse_output final_xor log
        = (Returned (status, checksum), log')).
Proof.
  intros Hwidth. pose proof (valid_width_pos _ Hwidth) as Hpos. split.
  - intros status checksum log'.
    destruct (range_overflows start_address end_address) eqn:Hover.
    + rewrite calc_checksum_overflow by assumption. discriminate.
    + rewrite calc_checksum_run by assumption.
      destruct (snd (range_passes start_address end_address));
        [ | discriminate].
      intros Hrun. injection Hrun as <- <- <-.
      apply finish_range. lia.
  - intros Hrange. rewrite calc_checksum_valid by assumption.
    do 3 eexists. reflexivity.
Qed.

Lemma checksum_range_witness :
  valid_width 32
  /\ exists status checksum log',
       calc_checksum (image_of [x31; x32; x33]) 0 3 0x04C11DB7 32
         (-1) true true true []
       = (Returned (status, checksum), log')
       /\ 0 <= checksum <= 2 ^ 32 - 1.
Proof.
  assert (Hwidth : valid_width 32) by (right; right; reflexivity).
  split; [exact Hwidth | ].
  destruct (checksum_range (image_of [x31; x32; x33]) 0 3 0x04C11DB7 32
              (-1) true true true [] Hwidth) as [Hbound Hreturns].
  destruct (Hreturns ltac:(discriminate)) as [status [checksum [log' Hrun]]].
  exists status, checksum, log'.
  split; [exact Hrun | exact (Hbound _ _ _ Hrun)].
Defined.

(** C6 (scenario C): the single byte 0x80 at address 0, range [0,1),
    polynomial 0x07, width 8, seed 0, [reverse_input = True] and the other
    flags false give status OK and checksum 0x07, the result of scenario
    B; reflecting the 8 bits of 0x80 gives 0x01. *)
Theorem scenario_c :
  calc_checksum (image_of [x80]) 0 1 0x07 8 0 true false false []
  = (Returned (OK, 0x07), [0])
  /\ result (reflect 8 0x80) = Returned 0x01
  /\ result (calc_checksum (image_of [x80]) 0 1 0x07 8 0 true false false)
     = result (calc_checksum (image_of [x01]) 0 1 0x07 8 0 false false false).
Proof. repeat split; vm_compute; reflexivity. Qed.




(** C8: the word size of [MemAccessU8] being 1, the condition of the
    misalignment check (line 81) is false for every start and end
    address; so for a width in {8, 16, 32} every status [calc_checksum]
    returns is OK, and for a range of at most 2^53 bytes it does
    return. *)
Theorem misaligned_branch_unreachable binary_data start_address end_address
    polynomial bit_width seed reverse_input reverse_output final_xor log :
  valid_width bit_width ->
  (end_address - start_address) mod Z.pos (get_size MemAccessU8) = 0
  /\ (forall status checksum log',
        calc_checksum binary_data start_address end_address polynomial
          bit_width seed reverse_input reverse_output final_xor log
        = (Returned (status, checksum), log') ->
        status = OK)
  /\ (Z.abs (end_address - start_address) <= 2 ^ 53 ->
      exists checksum log',
        calc_checksum binary_data start_address end_address polynomial
          bit_width seed reverse_input reverse_output final_xor log
        = (Returned (OK, checksum), log')).
Proof.
  intros Hwidth. split; [cbn [get_size MemAccessU8]; apply Z.mod_1_r | ].
  split.
  - intros status checksum log'.
    destruct (range_overflows start_address end_address) eqn:Hover.
    + rewrite calc_checksum_overflow by assumption. discriminate.
    + rewrite calc_checksum_run by assumption.
      destruct (snd (range_passes start_address end_address));
        [ | discriminate].
      intros Hrun. injection Hrun as <- _ _. reflexivity.
  - intros Hrange. rewrite calc_checksum_valid by assumption.
    do 2 eexists. reflexivity.
Qed.

Lemma misaligned_branch_unreachable_witness :
  valid_width 8
  /\ (3 - 0) mod Z.pos (get_size MemAccessU8) = 0
  /\ exists checksum log',
       calc_checksum (image_of [x01; x02; x03]) 0 3 0x07 8 0
         false false false []
       = (Returned (OK, checksum), log').
Proof.
  assert (Hwidth : valid_width 8) by (left; reflexivity).
  split; [exact Hwidth | ].
  destruct (misaligned_branch_unreachable (image_of [x01; x02; x03]) 0 3
              0x07 8 0 false false false [] Hwidth)
    as [Haligned [_ Hreturns]].
  split; [exact Haligned | ].
  apply Hreturns. discriminate.
Defined.

(** C9: on an empty range and a width in {8, 16, 32}, [calc_checksum]
    reads nothing (the log is unchanged) and returns OK with
    [seed & (2^bit_width - 1)], XORed with [2^bit_width - 1] when
    [final_xor] is set, whatever the two reflection flags are. *)
Theorem empty_range_checksum binary_data address polynomial bit_width seed
    reverse_input reverse_output final_xor log :
  valid_width bit_width ->
  calc_checksum binary_data address address polynomial bit_width seed
    reverse_input reverse_output final_xor log
  = (Returned
       (OK,
        if final_xor
        then Z.lxor (Z.land seed (2 ^ bit_width - 1)) (2 ^ bit_width - 1)
        else Z.land seed (2 ^ bit_width - 1)),
     log).
Proof.
  intros Hwidth.
  rewrite calc_checksum_valid
    by (try assumption; rewrite Z.sub_diag; discriminate).
  unfold range_bytes, range_addresses. rewrite Z.sub_diag.
  cbn [Z.to_nat addresses map]. rewrite app_nil_r.
  unfold register, finish. cbn [fold_left]. reflexivity.
Qed.

Lemma empty_range_checksum_witness :
  valid_width 16
  /\ calc_checksum (image_of [x01; x02]) 1 1 0x1021 16 0x12345
       true true true []
     = (Returned (OK, Z.lxor (Z.land 0x12345 (2 ^ 16 - 1)) (2 ^ 16 - 1)), []).
Proof.
  split.
  - right; left; reflexivity.
  - apply (empty_range_checksum (image_of [x01; x02]) 1 0x1021 16 0x12345
             true true true []).
    right; left; reflexivity.
Defined.

(** C10: for a width in {8, 16, 32} and a polynomial below
    [2^bit_width], [calc_checksum] with the seed [seed] gives exactly what
    it gives with the seed [seed mod 2^bit_width]. *)
Theorem seed_modulo_width binary_data start_address end_address polynomial
    bit_width seed reverse_input reverse_output final_xor log :
  valid_width bit_width ->
  polynomial < 2 ^ bit_width ->
  calc_checksum binary_data start_address end_address polynomial bit_width
    seed reverse_input reverse_output final_xor log
  = calc_checksum binary_data start_address end_address polynomial
      bit_width (seed mod 2 ^ bit_width) reverse_input reverse_output
      final_xor log.
Proof.
  intros Hwidth _. pose proof (valid_width_pos _ Hwidth) as Hpos.
  destruct (range_overflows start_address end_address) eqn:Hover.
  - rewrite !calc_checksum_overflow by assumption. reflexivity.
  - rewrite !calc_checksum_run by assumption.
    unfold finish, register.
    rewrite (agree_mask bit_width _ _ (Z.lt_le_incl _ _ Hpos)
               (fold_feed_agree bit_width _ Hpos reverse_input _ _ _
                  (agree_mod bit_width seed))).
    reflexivity.
Qed.

Lemma seed_modulo_width_witness :
  valid_width 8
  /\ 0x07 < 2 ^ 8
  /\ calc_checksum (image_of [x31; x32]) 0 2 0x07 8 0x1A5 true false true []
     = calc_checksum (image_of [x31; x32]) 0 2 0x07 8 (0x1A5 mod 2 ^ 8)
         true false true [].
Proof.
  split; [left; reflexivity | ].
  split; [reflexivity | ].
  apply seed_modulo_width; [left; reflexivity | reflexivity].
Defined.

(** * Further properties of the checksum command and of the macros *)

Example format_hex_examples :
  PyFormat.str_format "{:08X}" 0x0376E6E7 = Some "0376E6E7"%string
  /\ PyFormat.str_format "{:02X}" 0x1AB = Some "1AB"%string
  /\ PyFormat.str_format "{:04X}" (-255) = Some "-0FF"%string
  /\ PyFormat.str_format "{:0X}" 0 = Some "0"%string
  /\ PyFormat.str_format "{:02x}" 1 = None.
Proof. repeat split; vm_compute; reflexivity. Qed.

Example compare_values_examples :
  _macros_compare_values default_value_format 0x1 0xAB
  = inr "Not Ok (Set: 01, Actual: AB)"%string
  /\ _macros_compare_values default_value_format 7 7 = inr "Ok"%string.
Proof. split; vm_compute; reflexivity. Qed.

Example convert_docstring :
  _macros_convert_middle_to_little_endian 0xCCDDAABB = 0xAABBCCDD.
Proof. reflexivity. Qed.

Example check_stadabm_examples :
  _macros_check_stadabm 0x80000020 = "Ok"%string
  /\ _macros_check_stadabm 0xA0000002
     = "Not Ok (STADABM is not word alligned)"%string
  /\ _macros_check_stadabm 0x811FFFFF
     = "Not Ok (STADABM is not in the PFLASH)"%string
  /\ _macros_check_stadabm 0
     = "Not Ok (STADABM is not in the PFLASH)"%string.
Proof. repeat split; vm_compute; reflexivity. Qed.

Example cmd_checksum_prints :
  result (_cmd_checksum
            (fun _ => (Member OK,
                       image_of [x31; x32; x33; x34; x35; x36; x37; x38; x39]))
            "firmware.hex" 0 9 0x04C11DB7 32 0xFFFFFFFF false false false [])
  = Returned (Member OK,
              [{| printed_value := 0x0376E6E7; printed_format := "{:08X}" |}]).
Proof. vm_compute. reflexivity. Qed.

(** ** The addresses of a range *)

Lemma addresses_length start n : List.length (addresses start n) = n.
Proof.
  revert start. induction n as [ | n IH]; intros start; cbn [addresses List.length].
  - reflexivity.
  - rewrite IH. reflexivity.
Qed.

Lemma addresses_nth n : forall start i,
  (i < n)%nat -> nth i (addresses start n) 0 = start + Z.of_nat i.
Proof.
  induction n as [ | n IH]; intros start i Hi; [lia | ].
  cbn [addresses]. destruct i as [ | i]; cbn [nth].
  - lia.
  - rewrite IH by lia. lia.
Qed.

Lemma addresses_In n : forall start a,
  In a (addresses start n) -> start <= a < start + Z.of_nat n.
Proof.
  induction n as [ | n IH]; intros start a Hin; cbn [addresses] in Hin.
  - contradiction.
  - destruct Hin as [<- | Hin]; [lia | ].
    apply IH in Hin. lia.
Qed.

Lemma addresses_app n : forall start m,
  addresses start (n + m) = addresses start n ++ addresses (start + Z.of_nat n) m.
Proof.
  induction n as [ | n IH]; intros start m.
  - cbn [addresses Nat.add app]. rewrite Z.add_0_r. reflexivity.
  - cbn [addresses Nat.add app]. rewrite IH. do 3 f_equal. lia.
Qed.

Lemma range_addresses_split a b c :
  a <= b <= c ->
  range_addresses a c = range_addresses a b ++ range_addresses b c.
Proof.
  intros Habc. unfold range_addresses.
  replace (Z.to_nat (c - a)) with (Z.to_nat (b - a) + Z.to_nat (c - b))%nat by lia.
  rewrite addresses_app. do 2 f_equal. lia.
Qed.

(** ** More on agreement of registers *)

Lemma agree_sym n a b : agree n a b -> agree n b a.
Proof. intros Hab i Hi. symmetry. apply Hab. exact Hi. Qed.

Lemma agree_trans n a b c : agree n a b -> agree n b c -> agree n a c.
Proof. intros Hab Hbc i Hi. rewrite (Hab i Hi). apply Hbc. exact Hi. Qed.

Lemma agree_masked n a : agree n (Z.land a (2 ^ n - 1)) a.
Proof.
  intros i Hi. rewrite mask_is_ones, Z.land_spec, Z.ones_spec_low by lia.
  apply Bool.andb_true_r.
Qed.

Lemma finish_agree n final_xor a b :
  0 <= n -> agree n a b -> finish n final_xor a = finish n final_xor b.
Proof.
  intros Hn Hab. unfold finish. rewrite (agree_mask n a b Hn Hab). reflexivity.
Qed.

Lemma finish_agrees_with_register n a :
  agree n (finish n false a) a.
Proof. unfold finish. apply agree_masked. Qed.

Lemma register_app polynomial bit_width seed reverse_input bytes1 bytes2 :
  register polynomial bit_width seed reverse_input (bytes1 ++ bytes2)
  = register polynomial bit_width
      (register polynomial bit_width seed reverse_input bytes1)
      reverse_input bytes2.
Proof. unfold register. apply fold_left_app. Qed.

Lemma register_agree polynomial bit_width reverse_input bytes a b :
  0 < bit_width ->
  agree bit_width a b ->
  agree bit_width
    (register polynomial bit_width a reverse_input bytes)
    (register polynomial bit_width b reverse_input bytes).
Proof.
  intros Hpos Hab. unfold register. apply fold_feed_agree; assumption.
Qed.

Section PolynomialAgreement.

Variables (n p q : Z).
Hypothesis n_pos : 0 < n.
Hypothesis p_q : agree n p q.

Lemma shift_xor_agree_polynomial a b :
  agree n a b ->
  agree n (shift_xor (Z.shiftl 1 n) p a) (shift_xor (Z.shiftl 1 n) q b).
Proof.
  intros Hab. unfold shift_xor.
  rewrite !msb_test by lia.
  rewrite !Z.shiftl_spec by lia.
  rewrite (Hab (n - 1)) by lia.
  assert (Hshift : agree n (Z.shiftl a 1) (Z.shiftl b 1)).
  { intros i Hi. rewrite !Z.shiftl_spec by lia.
    destruct (Z.eq_dec i 0) as [-> | Hne].
    - rewrite !Z.testbit_neg_r by lia. reflexivity.
    - apply Hab. lia. }
  destruct (Z.testbit b (n - 1)); [ | exact Hshift].
  intros i Hi. rewrite !Z.lxor_spec, (Hshift i Hi), (p_q i Hi). reflexivity.
Qed.

Lemma fold_feed_agree_polynomial reverse_input bytes : forall a b,
  agree n a b ->
  agree n
    (fold_left (feed n (Z.shiftl 1 n) p reverse_input) bytes a)
    (fold_left (feed n (Z.shiftl 1 n) q reverse_input) bytes b).
Proof.
  induction bytes as [ | byte bytes IH]; intros a b Hab; cbn [fold_left].
  - exact Hab.
  - apply IH. unfold feed.
    assert (Hstart : agree n
              (Z.lxor a (Z.shiftl (if reverse_input then reflected 8 byte
                                   else byte) (n - 8)))
              (Z.lxor b (Z.shiftl (if reverse_input then reflected 8 byte
                                   else byte) (n - 8)))).
    { intros i Hi. rewrite !Z.lxor_spec, (Hab i Hi). reflexivity. }
    revert Hstart. generalize 8%nat as k.
    intros k. induction k as [ | k IHk]; intros Hstart; cbn [Nat.iter nat_rect].
    + exact Hstart.
    + apply shift_xor_agree_polynomial. apply IHk. exact Hstart.
Qed.

End PolynomialAgreement.

Lemma widened_polynomial_agree n p q :
  agree n p q ->
  agree n (Z.lor (Z.shiftl 1 n) p) (Z.lor (Z.shiftl 1 n) q).
Proof.
  intros Hpq i Hi. rewrite !Z.lor_spec, (Hpq i Hi). reflexivity.
Qed.

(** ** [calc_checksum]: reads, ranges and parameters *)

Lemma no_overflow_below_bound start_address end_address :
  Z.abs (end_address - start_address) < PyFloat.overflow_bound ->
  range_overflows start_address end_address = false.
Proof. intros Hrange. unfold range_overflows. apply Z.leb_gt. exact Hrange. Qed.

(** X1: for a width in {8, 16, 32} and a range of at most 2^53 bytes,
    [calc_checksum] reads exactly the addresses [start_address],
    [start_address + 1], ... below [end_address], each once and in
    ascending order. *)
Theorem reads_are_the_range binary_data start_address end_address polynomial
    bit_width seed reverse_input reverse_output final_xor :
  valid_width bit_width ->
  Z.abs (end_address - start_address) <= 2 ^ 53 ->
  exists addrs,
    reads (calc_checksum binary_data start_address end_address polynomial
             bit_width seed reverse_input reverse_output final_xor)
    = addrs
    /\ List.length addrs = Z.to_nat (end_address - start_address)
    /\ forall i, (i < List.length addrs)%nat ->
         nth i addrs 0 = start_address + Z.of_nat i.
Proof.
  intros Hwidth Hrange. exists (range_addresses start_address end_address).
  unfold reads. rewrite calc_checksum_valid by assumption.
  cbn [snd app]. unfold range_addresses.
  rewrite addresses_length.
  split; [reflexivity | ]. split; [reflexivity | ].
  intros i Hi. apply addresses_nth. exact Hi.
Qed.

Lemma reads_are_the_range_witness :
  valid_width 8 /\ Z.abs (4 - 1) <= 2 ^ 53
  /\ exists addrs,
       reads (calc_checksum (image_of [x31; x32; x33; x34]) 1 4 0x07 8 0
                false false false)
       = addrs
       /\ List.length addrs = Z.to_nat (4 - 1)
       /\ forall i, (i < List.length addrs)%nat ->
            nth i addrs 0 = 1 + Z.of_nat i.
Proof.
  split; [left; reflexivity | ].
  split; [discriminate | ].
  apply reads_are_the_range; [left; reflexivity | discriminate].
Defined.

(** X2: a range whose end lies before its start is not rejected: for a
    width in {8, 16, 32}, and a distance the true division of line 73
    does not overflow on, it is treated as empty, nothing is read and the
    status is OK with the masked seed (XORed with the mask under
    [final_xor]). *)
Theorem backwards_range_is_empty binary_data start_address end_address
    polynomial bit_width seed reverse_input reverse_output final_xor log :
  valid_width bit_width ->
  end_address < start_address ->
  start_address - end_address < PyFloat.overflow_bound ->
  calc_checksum binary_data start_address end_address polynomial bit_width
    seed reverse_input reverse_output final_xor log
  = (Returned
       (OK,
        if final_xor
        then Z.lxor (Z.land seed (2 ^ bit_width - 1)) (2 ^ bit_width - 1)
        else Z.land seed (2 ^ bit_width - 1)),
     log).
Proof.
  intros Hwidth Hlt Hbound.
  rewrite calc_checksum_run
    by (try apply no_overflow_below_bound; try assumption; lia).
  rewrite range_passes_backwards by lia.
  cbn [fst snd addresses map]. rewrite app_nil_r.
  unfold register, finish. cbn [fold_left]. reflexivity.
Qed.

Lemma backwards_range_is_empty_witness :
  valid_width 8 /\ 1 < 3 /\ 3 - 1 < PyFloat.overflow_bound
  /\ calc_checksum (image_of [x31; x32; x33; x34]) 3 1 0x07 8 0x5A
       true true false []
     = (Returned (OK, Z.land 0x5A (2 ^ 8 - 1)), []).
Proof.
  split; [left; reflexivity | ].
  split; [reflexivity | ].
  split; [reflexivity | ].
  apply (backwards_range_is_empty (image_of [x31; x32; x33; x34]) 3 1 0x07 8
           0x5A true true false []);
    [left; reflexivity | reflexivity | reflexivity].
Defined.

(** X3: the result depends on the image only through the bytes of the
    range: two images that hold the same bytes at every address of
    [[start_address, end_address)] give the same status, checksum and
    reads. *)
Theorem checksum_is_local image1 image2 start_address end_address polynomial
    bit_width seed reverse_input reverse_output final_xor log :
  (forall address, start_address <= address < end_address ->
     image1 address = image2 address) ->
  calc_checksum image1 start_address end_address polynomial bit_width seed
    reverse_input reverse_output final_xor log
  = calc_checksum image2 start_address end_address polynomial bit_width seed
      reverse_input reverse_output final_xor log.
Proof.
  intros Hsame.
  destruct (range_overflows start_address end_address) eqn:Hover.
  { rewrite !calc_checksum_overflow by assumption. reflexivity. }
  destruct (valid_width_dec bit_width) as [Hwidth | Hwidth].
  - rewrite !calc_checksum_run by assumption.
    replace (map (get_value MemAccessU8 image2)
               (addresses start_address
                  (fst (range_passes start_address end_address))))
      with (map (get_value MemAccessU8 image1)
              (addresses start_address
                 (fst (range_passes start_address end_address))));
      [reflexivity | ].
    apply map_ext_in. intros a Ha. apply addresses_In in Ha.
    pose proof (range_passes_le start_address end_address) as Hle.
    cbn [get_value MemAccessU8]. rewrite Hsame by lia. reflexivity.
  - rewrite !calc_checksum_invalid by assumption. reflexivity.
Qed.

Lemma checksum_is_local_witness :
  (forall address, 1 <= address < 3 ->
     image_of [x00; x32; x33; x00] address
     = image_of [xff; x32; x33; xff; x10] address)
  /\ calc_checksum (image_of [x00; x32; x33; x00]) 1 3 0x1021 16 0
       false false false []
     = calc_checksum (image_of [xff; x32; x33; xff; x10]) 1 3 0x1021 16 0
         false false false [].
Proof.
  assert (Hsame : forall address, 1 <= address < 3 ->
            image_of [x00; x32; x33; x00] address
            = image_of [xff; x32; x33; xff; x10] address).
  { intros address Haddress.
    assert (Hcases : address = 1 \/ address = 2) by lia.
    destruct Hcases as [-> | ->]; reflexivity. }
  split; [exact Hsame | ].
  apply checksum_is_local. exact Hsame.
Defined.

(** X4: checksums chain through the seed.  For [a <= b <= c] with at most
    2^53 bytes from [a] to [c] and a width in {8, 16, 32}, the checksum
    of [[a, b)] computed without [final_xor], used as the seed for
    [[b, c)], gives the checksum of [[a, c)]; the reads of the two calls
    together are the reads of the one call. *)
Theorem checksum_chains binary_data a b c polynomial bit_width seed
    reverse_input reverse_output reverse_output' final_xor log :
  valid_width bit_width ->
  a <= b <= c ->
  c - a <= 2 ^ 53 ->
  exists middle log',
    calc_checksum binary_data a b polynomial bit_width seed reverse_input
      reverse_output' false log
    = (Returned (OK, middle), log')
    /\ calc_checksum binary_data b c polynomial bit_width middle
         reverse_input reverse_output final_xor log'
       = calc_checksum binary_data a c polynomial bit_width seed
           reverse_input reverse_output final_xor log.
Proof.
  intros Hwidth Habc Hrange. pose proof (valid_width_pos _ Hwidth) as Hpos.
  do 2 eexists.
  split; [apply calc_checksum_valid; [lia | assumption] | ].
  rewrite !calc_checksum_valid by (try assumption; lia).
  rewrite (range_addresses_split a b c Habc), app_assoc.
  f_equal. f_equal. f_equal.
  unfold range_bytes at 3.
  rewrite (range_addresses_split a b c Habc), map_app, register_app.
  apply finish_agree; [lia | ].
  apply register_agree; [assumption | ].
  apply finish_agrees_with_register.
Qed.

Lemma checksum_chains_witness :
  valid_width 16 /\ 0 <= 2 <= 5 /\ 5 - 0 <= 2 ^ 53
  /\ exists middle log',
       calc_checksum (image_of [x31; x32; x33; x34; x35]) 0 2 0x1021 16
         0xFFFF true false false []
       = (Returned (OK, middle), log')
       /\ calc_checksum (image_of [x31; x32; x33; x34; x35]) 2 5 0x1021 16
            middle true true true log'
          = calc_checksum (image_of [x31; x32; x33; x34; x35]) 0 5 0x1021 16
              0xFFFF true true true [].
Proof.
  split; [right; left; reflexivity | ].
  split; [lia | ].
  split; [discriminate | ].
  apply checksum_chains; [right; left; reflexivity | lia | discriminate].
Defined.

(** X5: only the low [bit_width] bits of the polynomial count: for a
    width in {8, 16, 32}, [calc_checksum] gives the same with
    [polynomial] as with [polynomial mod 2^bit_width], so the top
    coefficient of the generator may be written or left out. *)
Theorem polynomial_modulo_width binary_data start_address end_address
    polynomial bit_width seed reverse_input reverse_output final_xor log :
  valid_width bit_width ->
  calc_checksum binary_data start_address end_address polynomial bit_width
    seed reverse_input reverse_output final_xor log
  = calc_checksum binary_data start_address end_address
      (polynomial mod 2 ^ bit_width) bit_width seed reverse_input
      reverse_output final_xor log.
Proof.
  intros Hwidth. pose proof (valid_width_pos _ Hwidth) as Hpos.
  destruct (range_overflows start_address end_address) eqn:Hover.
  { rewrite !calc_checksum_overflow by assumption. reflexivity. }
  rewrite !calc_checksum_run by assumption.
  replace (finish bit_width final_xor
             (register (polynomial mod 2 ^ bit_width) bit_width seed
                reverse_input
                (map (get_value MemAccessU8 binary_data)
                   (addresses start_address
                      (fst (range_passes start_address end_address))))))
    with (finish bit_width final_xor
            (register polynomial bit_width seed reverse_input
               (map (get_value MemAccessU8 binary_data)
                  (addresses start_address
                     (fst (range_passes start_address end_address))))));
    [reflexivity | ].
  apply finish_agree; [lia | ].
  unfold register.
  apply fold_feed_agree_polynomial; [assumption | | intros i Hi; reflexivity].
  apply widened_polynomial_agree, agree_mod.
Qed.

Lemma polynomial_modulo_width_witness :
  valid_width 32
  /\ calc_checksum (image_of [x31; x32; x33]) 0 3 0x104C11DB7 32 0
       false false false []
     = calc_checksum (image_of [x31; x32; x33]) 0 3
         (0x104C11DB7 mod 2 ^ 32) 32 0 false false false [].
Proof.
  split; [right; right; reflexivity | ].
  apply polynomial_modulo_width. right; right; reflexivity.
Defined.

Lemma feed_zero n polynomial reverse_input crc :
  0 < n ->
  agree n crc 0 ->
  agree n (feed n (Z.shiftl 1 n) polynomial reverse_input crc 0) 0.
Proof.
  intros Hpos Hcrc.
  assert (Hzero : feed n (Z.shiftl 1 n) polynomial reverse_input 0 0 = 0).
  { unfold feed.
    replace (if reverse_input then reflected 8 0 else 0) with 0
      by (destruct reverse_input; reflexivity).
    rewrite Z.shiftl_0_l. reflexivity. }
  rewrite <- Hzero at 2. apply feed_agree; assumption.
Qed.

Lemma register_zero polynomial bit_width reverse_input bytes : forall seed,
  0 < bit_width ->
  Forall (fun b => b = 0) bytes ->
  agree bit_width seed 0 ->
  agree bit_width (register polynomial bit_width seed reverse_input bytes) 0.
Proof.
  unfold register.
  induction bytes as [ | b bytes IH]; intros seed Hpos Hbytes Hseed;
    cbn [fold_left].
  - exact Hseed.
  - inversion Hbytes as [ | b' bytes' Hb Hrest]; subst.
    apply IH; [assumption | assumption | ].
    apply feed_zero; assumption.
Qed.

(** X6: with a seed whose low [bit_width] bits are zero, leading zero
    bytes do not show in the checksum: if every byte of [[a, b)] is zero
    and there are at most 2^53 bytes from [a] to [c], the checksum of
    [[a, c)] is the checksum of [[b, c)]. *)
Theorem leading_zeros_are_invisible binary_data a b c polynomial bit_width
    seed reverse_input reverse_output final_xor :
  valid_width bit_width ->
  a <= b <= c ->
  c - a <= 2 ^ 53 ->
  seed mod 2 ^ bit_width = 0 ->
  (forall address, a <= address < b -> binary_data address = x00) ->
  result (calc_checksum binary_data a c polynomial bit_width seed
            reverse_input reverse_output final_xor)
  = result (calc_checksum binary_data b c polynomial bit_width seed
              reverse_input reverse_output final_xor).
Proof.
  intros Hwidth Habc Hrange Hseed Hzero.
  pose proof (valid_width_pos _ Hwidth) as Hpos.
  unfold result. rewrite !calc_checksum_valid by (try assumption; lia).
  cbn [fst].
  f_equal. f_equal.
  unfold range_bytes at 1.
  rewrite (range_addresses_split a b c Habc), map_app, register_app.
  apply finish_agree; [lia | ].
  apply register_agree; [assumption | ].
  assert (Hseed0 : agree bit_width seed 0).
  { rewrite <- Hseed. apply agree_mod. }
  apply agree_trans with (b := 0); [ | apply agree_sym; exact Hseed0].
  apply register_zero; [assumption | | exact Hseed0].
  apply Forall_forall. intros x Hx.
  apply in_map_iff in Hx. destruct Hx as [address [<- Haddress]].
  unfold range_addresses in Haddress. apply addresses_In in Haddress.
  cbn [get_value MemAccessU8]. rewrite Hzero by lia. reflexivity.
Qed.

Lemma leading_zeros_are_invisible_witness :
  valid_width 8 /\ 0 <= 2 <= 4 /\ 4 - 0 <= 2 ^ 53 /\ 0x300 mod 2 ^ 8 = 0
  /\ (forall address, 0 <= address < 2 ->
        image_of [x00; x00; x31; x32] address = x00)
  /\ result (calc_checksum (image_of [x00; x00; x31; x32]) 0 4 0x07 8 0x300
               true false true)
     = result (calc_checksum (image_of [x00; x00; x31; x32]) 2 4 0x07 8 0x300
                 true false true).
Proof.
  assert (Hzero : forall address, 0 <= address < 2 ->
            image_of [x00; x00; x31; x32] address = x00).
  { intros address Haddress.
    assert (Hcases : address = 0 \/ address = 1) by lia.
    destruct Hcases as [-> | ->]; reflexivity. }
  split; [left; reflexivity | ].
  split; [lia | ].
  split; [discriminate | ].
  split; [reflexivity | ].
  split; [exact Hzero | ].
  apply leading_zeros_are_invisible;
    [left; reflexivity | lia | discriminate | reflexivity | exact Hzero].
Defined.

(** ** Bit reflection of an input byte *)

Lemma byte_value_cases word :
  0 <= word < 256 -> exists b : byte, word = Z.of_N (Byte.to_N b).
Proof.
  intros Hword. destruct (Byte.of_N (Z.to_N word)) as [b | ] eqn:Hb.
  - exists b. apply Byte.to_of_N in Hb. rewrite Hb. lia.
  - apply Byte.of_N_None_iff in Hb. lia.
Qed.

Lemma reflected_byte_check (b : byte) :
  let w := Z.of_N (Byte.to_N b) in
  let r := reflected 8 w in
  ((0 <=? r) && (r <? 256) && (reflected 8 r =? w)
   && forallb (fun i => Bool.eqb (Z.testbit r i) (Z.testbit w (7 - i)))
        [0; 1; 2; 3; 4; 5; 6; 7]) = true.
Proof. destruct b; vm_compute; reflexivity. Qed.

Lemma reflected_byte_range word :
  0 <= word < 256 -> 0 <= reflected 8 word < 256.
Proof.
  intros Hword. destruct (byte_value_cases word Hword) as [b ->].
  pose proof (reflected_byte_check b) as Hcheck. cbv zeta in Hcheck.
  rewrite !Bool.andb_true_iff in Hcheck.
  destruct Hcheck as [[[Hlow Hhigh] _] _].
  apply Z.leb_le in Hlow. apply Z.ltb_lt in Hhigh. lia.
Qed.

Lemma byte_of_Z_value n :
  0 <= n < 256 -> Z.of_N (Byte.to_N (byte_of_Z n)) = n.
Proof.
  intros Hn. unfold byte_of_Z.
  destruct (Byte.of_N (Z.to_N n)) as [b | ] eqn:Hb.
  - apply Byte.to_of_N in Hb. rewrite Hb. lia.
  - apply Byte.of_N_None_iff in Hb. lia.
Qed.

(** X7: on a byte value, the reflection of lines 98-99 returns (it does
    not raise) a byte value whose bit [i] is bit [7 - i] of the input,
    and reflecting that value again gives the input back. *)
Theorem reflect_byte_reverses_bits word log :
  0 <= word < 256 ->
  exists r,
    reflect 8 word log = (Returned r, log)
    /\ 0 <= r < 256
    /\ (forall i, 0 <= i < 8 -> Z.testbit r i = Z.testbit word (7 - i))
    /\ reflect 8 r log = (Returned word, log).
Proof.
  intros Hword. exists (reflected 8 word).
  pose proof (reflected_byte_range word Hword) as Hrange.
  destruct (reflect_nonneg 8 word log ltac:(lia)) as [Hrun _].
  destruct (reflect_nonneg 8 (reflected 8 word) log ltac:(lia)) as [Hback _].
  destruct (byte_value_cases word Hword) as [b Hb].
  pose proof (reflected_byte_check b) as Hcheck. cbv zeta in Hcheck.
  rewrite <- Hb in Hcheck.
  rewrite !Bool.andb_true_iff in Hcheck.
  destruct Hcheck as [[_ Hinv] Hbits].
  apply Z.eqb_eq in Hinv.
  split; [exact Hrun | ]. split; [exact Hrange | ]. split.
  - intros i Hi. rewrite forallb_forall in Hbits.
    apply Bool.eqb_prop. apply Hbits.
    assert (Hcases : i = 0 \/ i = 1 \/ i = 2 \/ i = 3 \/ i = 4 \/ i = 5
                     \/ i = 6 \/ i = 7) by lia.
    repeat (destruct Hcases as [-> | Hcases]; [cbn [In]; tauto | ]).
    subst i. cbn [In]. tauto.
  - rewrite Hback, Hinv. reflexivity.
Qed.

Lemma reflect_byte_reverses_bits_witness :
  0 <= 0xB4 < 256
  /\ exists r,
       reflect 8 0xB4 [] = (Returned r, [])
       /\ 0 <= r < 256
       /\ (forall i, 0 <= i < 8 -> Z.testbit r i = Z.testbit 0xB4 (7 - i))
       /\ reflect 8 r [] = (Returned 0xB4, []).
Proof.
  split; [lia | ].
  apply reflect_byte_reverses_bits. lia.
Defined.

Lemma fold_feed_reflected bit_width msb_mask polynomial bytes : forall seed,
  fold_left (feed bit_width msb_mask polynomial true) bytes seed
  = fold_left (feed bit_width msb_mask polynomial false)
      (map (reflected 8) bytes) seed.
Proof.
  induction bytes as [ | b bytes IH]; intros seed; cbn [map fold_left].
  - reflexivity.
  - rewrite IH. reflexivity.
Qed.

(** X8: [reverse_input] amounts to reflecting the data beforehand: the
    call with [reverse_input = True] on an image gives what the call with
    [reverse_input = False] gives on the image with every byte bit
    reflected. *)
Theorem reverse_input_reflects_the_image binary_data start_address
    end_address polynomial bit_width seed reverse_output final_xor log :
  calc_checksum binary_data start_address end_address polynomial bit_width
    seed true reverse_output final_xor log
  = calc_checksum (reflect_image binary_data) start_address end_address
      polynomial bit_width seed false reverse_output final_xor log.
Proof.
  destruct (range_overflows start_address end_address) eqn:Hover.
  { rewrite !calc_checksum_overflow by assumption. reflexivity. }
  destruct (valid_width_dec bit_width) as [Hwidth | Hwidth].
  - assert (Hbytes : forall addrs,
              map (reflected 8) (map (get_value MemAccessU8 binary_data) addrs)
              = map (get_value MemAccessU8 (reflect_image binary_data)) addrs).
    { intros addrs. rewrite map_map. apply map_ext. intros address.
      unfold reflect_image. cbn [get_value MemAccessU8].
      rewrite byte_of_Z_value; [reflexivity | ].
      apply reflected_byte_range.
      pose proof (Byte.to_N_bounded (binary_data address)). lia. }
    rewrite !calc_checksum_run by assumption.
    unfold register. rewrite fold_feed_reflected, Hbytes. reflexivity.
  - rewrite !calc_checksum_invalid by assumption. reflexivity.
Qed.

(** ** The macros *)

(** X9: [_macros_compare_values] returns ["Ok"] exactly when the two
    values are equal, whatever the format is; on equal values the format
    is not used, so a format that raises does no harm. *)
Theorem compare_values_ok_iff_equal (E : Type) (format_value : Z -> E + string)
    set_value actual_value :
  _macros_compare_values format_value set_value actual_value = inr "Ok"%string
  <-> set_value = actual_value.
Proof.
  unfold _macros_compare_values.
  destruct (Z.eqb_spec set_value actual_value) as [Heq | Hne].
  - split; [intros _; exact Heq | reflexivity].
  - split; [ | intros Heq; contradiction].
    destruct (format_value set_value) as [e | set_text]; [discriminate | ].
    destruct (format_value actual_value) as [e | actual_text];
      [discriminate | ].
    cbn. discriminate.
Qed.

Lemma convert_testbit value i :
  0 <= i ->
  Z.testbit (_macros_convert_middle_to_little_endian value) i
  = if i <? 16 then Z.testbit value (i + 16)
    else if i <? 32 then Z.testbit value (i - 16) || Z.testbit value (i + 16)
    else false.
Proof.
  intros Hi. unfold _macros_convert_middle_to_little_endian.
  change 0xFFFFFFFF with (Z.ones 32).
  rewrite Z.lor_spec, !Z.land_spec, Z.shiftl_spec, Z.shiftr_spec by assumption.
  rewrite Z.testbit_ones_nonneg by lia.
  destruct (Z.ltb_spec i 16) as [H16 | H16].
  - rewrite Z.testbit_neg_r by lia.
    destruct (Z.ltb_spec i 32); [ | lia].
    cbn [andb orb]. rewrite Bool.andb_true_r. reflexivity.
  - destruct (Z.ltb_spec i 32).
    + rewrite !Bool.andb_true_r. reflexivity.
    + rewrite !Bool.andb_false_r. reflexivity.
Qed.

(** X10: the bits of [_macros_convert_middle_to_little_endian value], for
    every integer [value]: bit [i] of the result is bit [i + 16] of the
    value for [i < 16]; for [16 <= i < 32] it is bit [i - 16] OR bit
    [i + 16] of the value, so the bits 32 to 47 of a value wider than 32
    bits leak into the upper half; above bit 31 the result has no bit. *)
Theorem convert_bits value i :
  0 <= i ->
  Z.testbit (_macros_convert_middle_to_little_endian value) i
  = if i <? 16 then Z.testbit value (i + 16)
    else if i <? 32 then Z.testbit value (i - 16) || Z.testbit value (i + 16)
    else false.
Proof. apply convert_testbit. Qed.

Lemma convert_bits_witness :
  0 <= 20
  /\ Z.testbit (_macros_convert_middle_to_little_endian 0x100000000) 20
     = if 20 <? 16 then Z.testbit 0x100000000 (20 + 16)
       else if 20 <? 32
            then Z.testbit 0x100000000 (20 - 16) || Z.testbit 0x100000000 (20 + 16)
            else false.
Proof.
  split; [lia | ].
  apply (convert_bits 0x100000000 20). lia.
Defined.

Lemma bits_above_32 value :
  0 <= value < 2 ^ 32 -> forall i, 32 <= i -> Z.testbit value i = false.
Proof.
  intros Hvalue i Hi. rewrite <- (Z.mod_small value (2 ^ 32)) by assumption.
  apply Z.mod_pow2_bits_high. lia.
Qed.

(** X11: whatever the integer given, the result of
    [_macros_convert_middle_to_little_endian] is a 32 bit value. *)
Theorem convert_range value :
  0 <= _macros_convert_middle_to_little_endian value < 2 ^ 32.
Proof.
  assert (Hmod : _macros_convert_middle_to_little_endian value
                 = _macros_convert_middle_to_little_endian value mod 2 ^ 32).
  { apply Z.bits_inj'. intros i Hi.
    destruct (Z.ltb_spec i 32) as [Hlow | Hhigh].
    - rewrite Z.mod_pow2_bits_low by lia. reflexivity.
    - rewrite Z.mod_pow2_bits_high by lia.
      rewrite convert_testbit by assumption.
      destruct (Z.ltb_spec i 16); [lia | ].
      destruct (Z.ltb_spec i 32); [lia | reflexivity]. }
  rewrite Hmod. apply Z.mod_pos_bound. reflexivity.
Qed.

(** X12: on a 32 bit value, [_macros_convert_middle_to_little_endian]
    exchanges the two 16 bit halves, and applying it twice gives the
    value back. *)
Theorem convert_swaps_halves value :
  0 <= value < 2 ^ 32 ->
  _macros_convert_middle_to_little_endian value
  = (value mod 2 ^ 16) * 2 ^ 16 + value / 2 ^ 16
  /\ _macros_convert_middle_to_little_endian
       (_macros_convert_middle_to_little_endian value)
     = value.
Proof.
  intros Hvalue.
  pose proof (bits_above_32 value Hvalue) as Hhigh.
  assert (Hlow_half : _macros_convert_middle_to_little_endian value mod 2 ^ 16
                      = value / 2 ^ 16).
  { apply Z.bits_inj'. intros i Hi.
    rewrite Z.div_pow2_bits by lia.
    destruct (Z.ltb_spec i 16) as [H16 | H16].
    - rewrite Z.mod_pow2_bits_low by lia.
      rewrite convert_testbit by assumption.
      destruct (Z.ltb_spec i 16); [reflexivity | lia].
    - rewrite Z.mod_pow2_bits_high by lia.
      symmetry. apply Hhigh. lia. }
  assert (Hhigh_half : _macros_convert_middle_to_little_endian value / 2 ^ 16
                       = value mod 2 ^ 16).
  { apply Z.bits_inj'. intros i Hi.
    rewrite Z.div_pow2_bits by lia.
    rewrite convert_testbit by lia.
    destruct (Z.ltb_spec (i + 16) 16); [lia | ].
    destruct (Z.ltb_spec (i + 16) 32).
    - rewrite Z.mod_pow2_bits_low by lia.
      rewrite (Hhigh (i + 16 + 16)) by lia.
      rewrite Bool.orb_false_r. f_equal. lia.
    - rewrite Z.mod_pow2_bits_high by lia. reflexivity. }
  split.
  - pose proof (Z.div_mod (_macros_convert_middle_to_little_endian value)
                  (2 ^ 16) ltac:(lia)) as Hdm.
    rewrite Hlow_half, Hhigh_half in Hdm. lia.
  - apply Z.bits_inj'. intros i Hi.
    rewrite convert_testbit by assumption.
    destruct (Z.ltb_spec i 16).
    + rewrite convert_testbit by lia.
      destruct (Z.ltb_spec (i + 16) 16); [lia | ].
      destruct (Z.ltb_spec (i + 16) 32); [ | lia].
      rewrite (Hhigh (i + 16 + 16)) by lia.
      rewrite Bool.orb_false_r. f_equal. lia.
    + destruct (Z.ltb_spec i 32).
      * rewrite !convert_testbit by lia.
        destruct (Z.ltb_spec (i - 16) 16); [ | lia].
        destruct (Z.ltb_spec (i + 16) 16); [lia | ].
        destruct (Z.ltb_spec (i + 16) 32); [lia | ].
        rewrite Bool.orb_false_r. f_equal. lia.
      * symmetry. apply Hhigh. lia.
Qed.

Lemma convert_swaps_halves_witness :
  0 <= 0xCCDDAABB < 2 ^ 32
  /\ _macros_convert_middle_to_little_endian 0xCCDDAABB
     = (0xCCDDAABB mod 2 ^ 16) * 2 ^ 16 + 0xCCDDAABB / 2 ^ 16
  /\ _macros_convert_middle_to_little_endian
       (_macros_convert_middle_to_little_endian 0xCCDDAABB)
     = 0xCCDDAABB.
Proof.
  split; [lia | ].
  apply (convert_swaps_halves 0xCCDDAABB). lia.
Defined.

(** X13: [_macros_check_stadabm] answers ["Ok"] exactly for the multiples
    of 4 from 0x80000000 to 0x811FFFFC and from 0xA0000000 to 0xA11FFFFC:
    the end of a [range] being excluded costs no word aligned address. *)
Theorem check_stadabm_ok_iff value :
  _macros_check_stadabm value = "Ok"%string
  <-> value mod 4 = 0
      /\ (0x80000000 <= value <= 0x811FFFFC
          \/ 0xA0000000 <= value <= 0xA11FFFFC).
Proof.
  unfold _macros_check_stadabm, in_range. cbn [range_start range_stop].
  pose proof (Z.div_mod value 4 ltac:(lia)) as Hdm.
  destruct (Z.leb_spec 0x80000000 value);
    destruct (Z.ltb_spec value 0x811FFFFF);
    destruct (Z.leb_spec 0xA0000000 value);
    destruct (Z.ltb_spec value 0xA11FFFFF);
    destruct (Z.eqb_spec (value mod 4) 0);
    cbn [andb orb negb];
    (split; [intros Hok; try discriminate Hok | intros [Hmod Hseg]]);
    try reflexivity; try lia.
Qed.

(** X14: [_macros_check_stadabm] answers that the address is not in the
    PFLASH exactly when it lies in neither half open segment, aligned or
    not; the last byte addresses 0x811FFFFF and 0xA11FFFFF of the
    segments get this answer. *)
Theorem check_stadabm_not_in_pflash_iff value :
  _macros_check_stadabm value = "Not Ok (STADABM is not in the PFLASH)"%string
  <-> ~ (0x80000000 <= value < 0x811FFFFF)
      /\ ~ (0xA0000000 <= value < 0xA11FFFFF).
Proof.
  unfold _macros_check_stadabm, in_range. cbn [range_start range_stop].
  pose proof (Z.div_mod value 4 ltac:(lia)) as Hdm.
  destruct (Z.leb_spec 0x80000000 value);
    destruct (Z.ltb_spec value 0x811FFFFF);
    destruct (Z.leb_spec 0xA0000000 value);
    destruct (Z.ltb_spec value 0xA11FFFFF);
    destruct (Z.eqb_spec (value mod 4) 0);
    cbn [andb orb negb];
    (split; [intros Hmsg; try discriminate Hmsg | intros [Hs8 Hs10]]);
    try reflexivity; try lia.
Qed.

(** ** The command *)

Lemma hex_digits_length bound : forall n acc k,
  0 <= n < 16 ^ Z.of_nat k -> (1 <= k)%nat ->
  (List.length (PyFormat.hex_digits bound n acc) <= k + List.length acc)%nat.
Proof.
  induction bound as [ | bound IH]; intros n acc k Hn Hk;
    cbn [PyFormat.hex_digits].
  - lia.
  - destruct (Z.ltb_spec n 16) as [Hsmall | Hbig].
    + cbn [List.length]. lia.
    + destruct k as [ | k]; [lia | ].
      destruct k as [ | k]; [cbn in Hn; lia | ].
      assert (Hdiv : 0 <= n / 16 < 16 ^ Z.of_nat (S k)).
      { split; [apply Z.div_pos; lia | ].
        apply Z.div_lt_upper_bound; [lia | ].
        replace (16 * 16 ^ Z.of_nat (S k)) with (16 ^ Z.of_nat (S (S k)));
          [lia | ].
        rewrite (Nat2Z.inj_succ (S k)), Z.pow_succ_r by lia. reflexivity. }
      pose proof (IH (n / 16) (PyFormat.hex_digit (n mod 16) :: acc) (S k)
                    Hdiv ltac:(lia)) as Hlen.
      cbn [List.length] in Hlen. lia.
Qed.

Lemma format_0X_length width n :
  0 <= n < 16 ^ Z.of_nat width -> (1 <= width)%nat ->
  List.length (PyFormat.format_0X width n) = width.
Proof.
  intros Hn Hwidth. unfold PyFormat.format_0X.
  destruct (Z.ltb_spec n 0); [lia | ].
  unfold Py.zfill. rewrite length_app, repeat_length.
  assert (Hlen : (List.length (PyFormat.hex_abs n) <= width)%nat).
  { unfold PyFormat.hex_abs. rewrite Z.abs_eq by lia.
    pose proof (hex_digits_length (S (Z.to_nat (Z.log2 n))) n [] width
                  Hn Hwidth) as Hlen.
    cbn [List.length] in Hlen. lia. }
  lia.
Qed.

Lemma string_of_list_ascii_length s :
  String.length (string_of_list_ascii s) = List.length s.
Proof.
  induction s as [ | c s IH]; cbn; [reflexivity | rewrite IH; reflexivity].
Qed.

Lemma is_ok_true ret_status : is_ok ret_status = true -> ret_status = Member OK.
Proof.
  destruct ret_status as [[ | ] | name]; cbn; intros Hok;
    [reflexivity | discriminate | discriminate].
Qed.

(** X15: [_cmd_checksum] prints exactly when it returns OK.  Whenever
    it returns, a status OK comes after one call of
    [common_print_value], and with any other status the console is as
    before and no byte of the image has been read.  A failure of the
    loader is returned as it is; and when the loader succeeds on a range
    of at most 2^53 bytes, the command returns. *)
Theorem cmd_checksum_prints_iff_ok common_load_binary_file binary_file
    start_address end_address polynomial bit_width seed reverse_input
    reverse_output final_xor console log :
  (forall ret_status console' log',
     _cmd_checksum common_load_binary_file binary_file start_address
       end_address polynomial bit_width seed reverse_input reverse_output
       final_xor console log
     = (Returned (ret_status, console'), log') ->
     (is_ok ret_status = true -> exists call, console' = console ++ [call])
     /\ (is_ok ret_status = false -> console' = console /\ log' = log))
  /\ (is_ok (fst (common_load_binary_file binary_file)) = false ->
      _cmd_checksum common_load_binary_file binary_file start_address
        end_address polynomial bit_width seed reverse_input reverse_output
        final_xor console log
      = (Returned (fst (common_load_binary_file binary_file), console), log))
  /\ (is_ok (fst (common_load_binary_file binary_file)) = true ->
      Z.abs (end_address - start_address) <= 2 ^ 53 ->
      exists ret_status console' log',
        _cmd_checksum common_load_binary_file binary_file start_address
          end_address polynomial bit_width seed reverse_input
          reverse_output final_xor console log
        = (Returned (ret_status, console'), log')).
Proof.
  unfold _cmd_checksum.
  destruct (common_load_binary_file binary_file) as [load_status intel_hex].
  cbn [fst].
  destruct (is_ok load_status) eqn:Hload.
  - unfold bind.
    destruct (range_overflows start_address end_address) eqn:Hover.
    { rewrite calc_checksum_overflow by assumption.
      split; [discriminate | ]. split; [discriminate | ].
      intros _ Hrange.
      rewrite exact_range_no_overflow in Hover by assumption. discriminate. }
    destruct (valid_width_dec bit_width) as [Hwidth | Hwidth].
    + rewrite calc_checksum_run by assumption.
      split; [ | split; [discriminate | ]].
      * destruct (snd (range_passes start_address end_address));
          [ | discriminate].
        cbn [is_ok]. unfold ret. intros ret_status console' log' Hrun.
        injection Hrun as <- <- <-.
        split; [intros _; eexists; reflexivity | discriminate].
      * intros _ Hrange. rewrite range_passes_exact by assumption.
        cbn [fst snd is_ok]. unfold ret. do 3 eexists. reflexivity.
    + rewrite calc_checksum_invalid by assumption. cbn [is_ok]. unfold ret.
      split; [ | split; [discriminate | ]].
      * intros ret_status console' log' Hrun. injection Hrun as <- <- <-.
        split; [discriminate | intros _; split; reflexivity].
      * intros _ _. do 3 eexists. reflexivity.
  - unfold ret. split; [ | split; [reflexivity | discriminate]].
    intros ret_status console' log' Hrun. injection Hrun as <- <- <-.
    split; [rewrite Hload; discriminate | intros _; split; reflexivity].
Qed.

(** X16: when the loader succeeds, the width is in {8, 16, 32} and the
    range has at most 2^53 bytes,
    [_cmd_checksum] returns OK after one call of [common_print_value]
    with the checksum of [calc_checksum] and the format
    ["{:0" + str(bit_width // 4) + "X}"], and that format renders the
    checksum in exactly [bit_width // 4] characters: the checksum never
    needs more digits than the field has. *)
Theorem cmd_checksum_prints_fixed_width common_load_binary_file binary_file
    start_address end_address polynomial bit_width seed reverse_input
    reverse_output final_xor console log :
  is_ok (fst (common_load_binary_file binary_file)) = true ->
  valid_width bit_width ->
  Z.abs (end_address - start_address) <= 2 ^ 53 ->
  exists checksum value_format text log',
    calc_checksum (snd (common_load_binary_file binary_file)) start_address
      end_address polynomial bit_width seed reverse_input reverse_output
      final_xor log
    = (Returned (OK, checksum), log')
    /\ _cmd_checksum common_load_binary_file binary_file start_address
         end_address polynomial bit_width seed reverse_input reverse_output
         final_xor console log
       = (Returned
            (Member OK,
             console ++ [{| printed_value := checksum;
                            printed_format := value_format |}]),
          log')
    /\ value_format
       = ("{:0" ++ PyFormat.str_of_int (bit_width / 4) ++ "X}")%string
    /\ PyFormat.str_format value_format checksum = Some text
    /\ String.length text = Z.to_nat (bit_width / 4).
Proof.
  intros Hload Hwidth Hlength. unfold _cmd_checksum.
  destruct (common_load_binary_file binary_file) as [load_status intel_hex].
  cbn [fst snd] in *. rewrite Hload.
  unfold bind. rewrite calc_checksum_valid by assumption.
  cbn [is_ok]. unfold ret, common_print_value.
  pose proof (finish_range bit_width final_xor
                (register polynomial bit_width seed reverse_input
                   (range_bytes intel_hex start_address end_address))
                ltac:(pose proof (valid_width_pos _ Hwidth); lia)) as Hrange.
  set (checksum := finish bit_width final_xor _) in *.
  clearbody checksum.
  exists checksum.
  destruct Hwidth as [-> | [-> | ->]].
  - exists "{:02X}"%string.
    exists (string_of_list_ascii (PyFormat.format_0X 2 checksum)).
    eexists. repeat split.
    rewrite string_of_list_ascii_length.
    apply (format_0X_length 2); [ | lia].
    change (16 ^ Z.of_nat 2) with 256. change (2 ^ 8 - 1) with 255 in Hrange.
    lia.
  - exists "{:04X}"%string.
    exists (string_of_list_ascii (PyFormat.format_0X 4 checksum)).
    eexists. repeat split.
    rewrite string_of_list_ascii_length.
    apply (format_0X_length 4); [ | lia].
    change (16 ^ Z.of_nat 4) with 65536.
    change (2 ^ 16 - 1) with 65535 in Hrange. lia.
  - exists "{:08X}"%string.
    exists (string_of_list_ascii (PyFormat.format_0X 8 checksum)).
    eexists. repeat split.
    rewrite string_of_list_ascii_length.
    apply (format_0X_length 8); [ | lia].
    change (16 ^ Z.of_nat 8) with 4294967296.
    change (2 ^ 32 - 1) with 4294967295 in Hrange. lia.
Qed.

Lemma cmd_checksum_prints_fixed_width_witness :
  is_ok (fst ((fun _ : string => (Member OK, image_of [x31; x32; x33]))
                "firmware.hex"%string)) = true
  /\ valid_width 16
  /\ Z.abs (3 - 0) <= 2 ^ 53
  /\ exists checksum value_format text log',
       calc_checksum
         (snd ((fun _ : string => (Member OK, image_of [x31; x32; x33]))
                 "firmware.hex"%string))
         0 3 0x1021 16 0 false false false []
       = (Returned (OK, checksum), log')
       /\ _cmd_checksum
            (fun _ : string => (Member OK, image_of [x31; x32; x33]))
            "firmware.hex" 0 3 0x1021 16 0 false false false [] []
          = (Returned
               (Member OK,
                [] ++ [{| printed_value := checksum;
                          printed_format := value_format |}]),
             log')
       /\ value_format
          = ("{:0" ++ PyFormat.str_of_int (16 / 4) ++ "X}")%string
       /\ PyFormat.str_format value_format checksum = Some text
       /\ String.length text = Z.to_nat (16 / 4).
Proof.
  split; [reflexivity | ].
  split; [right; left; reflexivity | ].
  split; [discriminate | ].
  apply (cmd_checksum_prints_fixed_width
           (fun _ : string => (Member OK, image_of [x31; x32; x33]))
           "firmware.hex" 0 3 0x1021 16 0 false false false [] []);
    [reflexivity | right; left; reflexivity | discriminate].
Defined.

(** ** Linearity over GF(2) *)

Lemma byte_bits_high value i :
  0 <= value < 256 -> 8 <= i -> Z.testbit value i = false.
Proof.
  intros Hvalue Hi. rewrite <- (Z.mod_small value (2 ^ 8)) by (cbn; lia).
  apply Z.mod_pow2_bits_high. lia.
Qed.

Lemma byte_of_bits value :
  0 <= value ->
  (forall i, 8 <= i -> Z.testbit value i = false) ->
  0 <= value < 256.
Proof.
  intros Hnonneg Hhigh.
  assert (Hmod : value = value mod 2 ^ 8).
  { apply Z.bits_inj'. intros i Hi.
    destruct (Z.ltb_spec i 8).
    - rewrite Z.mod_pow2_bits_low by lia. reflexivity.
    - rewrite Z.mod_pow2_bits_high by lia. apply Hhigh. lia. }
  pose proof (Z.mod_pos_bound value (2 ^ 8) ltac:(reflexivity)) as Hbound.
  rewrite <- Hmod in Hbound. cbn in Hbound. lia.
Qed.

Lemma lxor_byte_range u v :
  0 <= u < 256 -> 0 <= v < 256 -> 0 <= Z.lxor u v < 256.
Proof.
  intros Hu Hv. apply byte_of_bits.
  - apply Z.lxor_nonneg. lia.
  - intros i Hi. rewrite Z.lxor_spec, !byte_bits_high by assumption.
    reflexivity.
Qed.

Lemma reflected_byte_bits value i :
  0 <= value < 256 -> 0 <= i < 8 ->
  Z.testbit (reflected 8 value) i = Z.testbit value (7 - i).
Proof.
  intros Hvalue Hi. destruct (byte_value_cases value Hvalue) as [b ->].
  pose proof (reflected_byte_check b) as Hcheck. cbv zeta in Hcheck.
  rewrite !Bool.andb_true_iff in Hcheck. destruct Hcheck as [_ Hbits].
  rewrite forallb_forall in Hbits. apply Bool.eqb_prop. apply Hbits.
  assert (Hcases : i = 0 \/ i = 1 \/ i = 2 \/ i = 3 \/ i = 4 \/ i = 5
                   \/ i = 6 \/ i = 7) by lia.
  repeat (destruct Hcases as [-> | Hcases]; [cbn [In]; tauto | ]).
  subst i. cbn [In]. tauto.
Qed.

Lemma reflected_lxor u v :
  0 <= u < 256 -> 0 <= v < 256 ->
  reflected 8 (Z.lxor u v) = Z.lxor (reflected 8 u) (reflected 8 v).
Proof.
  intros Hu Hv. pose proof (lxor_byte_range u v Hu Hv) as Huv.
  apply Z.bits_inj'. intros i Hi. rewrite Z.lxor_spec.
  destruct (Z.ltb_spec i 8).
  - rewrite !reflected_byte_bits by lia. apply Z.lxor_spec.
  - rewrite !byte_bits_high by (try apply reflected_byte_range; lia).
    reflexivity.
Qed.

Section Linearity.

Variables (n polynomial : Z).
Hypothesis n_pos : 0 < n.

Lemma shift_xor_linear x a b :
  agree n x (Z.lxor a b) ->
  agree n (shift_xor (Z.shiftl 1 n) polynomial x)
    (Z.lxor (shift_xor (Z.shiftl 1 n) polynomial a)
       (shift_xor (Z.shiftl 1 n) polynomial b)).
Proof.
  intros Hx. unfold shift_xor.
  rewrite !msb_test by lia.
  rewrite !Z.shiftl_spec by lia.
  rewrite (Hx (n - 1)) by lia. rewrite Z.lxor_spec.
  assert (Hshift : forall i, 0 <= i < n ->
            Z.testbit (Z.shiftl x 1) i
            = xorb (Z.testbit (Z.shiftl a 1) i) (Z.testbit (Z.shiftl b 1) i)).
  { intros i Hi. rewrite !Z.shiftl_spec by lia.
    destruct (Z.eq_dec i 0) as [-> | Hne].
    - rewrite !Z.testbit_neg_r by lia. reflexivity.
    - rewrite (Hx (i - 1)) by lia. apply Z.lxor_spec. }
  destruct (Z.testbit a (n - 1)), (Z.testbit b (n - 1)); cbn [xorb];
    intros i Hi; rewrite ?Z.lxor_spec, (Hshift i Hi);
    destruct (Z.testbit (Z.shiftl a 1) i), (Z.testbit (Z.shiftl b 1) i),
      (Z.testbit polynomial i); reflexivity.
Qed.

Lemma iter_shift_xor_linear k x a b :
  agree n x (Z.lxor a b) ->
  agree n (Nat.iter k (shift_xor (Z.shiftl 1 n) polynomial) x)
    (Z.lxor (Nat.iter k (shift_xor (Z.shiftl 1 n) polynomial) a)
       (Nat.iter k (shift_xor (Z.shiftl 1 n) polynomial) b)).
Proof.
  intros Hx. induction k as [ | k IH]; cbn [Nat.iter nat_rect].
  - exact Hx.
  - apply shift_xor_linear. exact IH.
Qed.

Lemma feed_linear reverse_input x a b u v :
  0 <= u < 256 -> 0 <= v < 256 ->
  agree n x (Z.lxor a b) ->
  agree n (feed n (Z.shiftl 1 n) polynomial reverse_input x (Z.lxor u v))
    (Z.lxor (feed n (Z.shiftl 1 n) polynomial reverse_input a u)
       (feed n (Z.shiftl 1 n) polynomial reverse_input b v)).
Proof.
  intros Hu Hv Hx. unfold feed. apply iter_shift_xor_linear.
  assert (Hword : (if reverse_input then reflected 8 (Z.lxor u v)
                   else Z.lxor u v)
                  = Z.lxor (if reverse_input then reflected 8 u else u)
                      (if reverse_input then reflected 8 v else v)).
  { destruct reverse_input; [apply reflected_lxor; assumption | reflexivity]. }
  rewrite Hword. intros i Hi.
  rewrite !Z.lxor_spec, (Hx i Hi), Z.lxor_spec.
  destruct (Z.le_gt_cases 0 (i - (n - 8))) as [Hge | Hlt].
  - rewrite !Z.shiftl_spec, Z.lxor_spec by lia.
    destruct (Z.testbit a i), (Z.testbit b i),
      (Z.testbit (if reverse_input then reflected 8 u else u) (i - (n - 8))),
      (Z.testbit (if reverse_input then reflected 8 v else v) (i - (n - 8)));
      reflexivity.
  - rewrite !Z.shiftl_spec by lia.
    rewrite !(fun w => Z.testbit_neg_r w (i - (n - 8)) Hlt).
    destruct (Z.testbit a i), (Z.testbit b i); reflexivity.
Qed.

Lemma fold_feed_linear reverse_input (g1 g2 g12 : Z -> Z) addrs :
  (forall address, 0 <= g1 address < 256) ->
  (forall address, 0 <= g2 address < 256) ->
  (forall address, g12 address = Z.lxor (g1 address) (g2 address)) ->
  forall x a b,
    agree n x (Z.lxor a b) ->
    agree n
      (fold_left (feed n (Z.shiftl 1 n) polynomial reverse_input)
         (map g12 addrs) x)
      (Z.lxor
         (fold_left (feed n (Z.shiftl 1 n) polynomial reverse_input)
            (map g1 addrs) a)
         (fold_left (feed n (Z.shiftl 1 n) polynomial reverse_input)
            (map g2 addrs) b)).
Proof.
  intros Hg1 Hg2 Hg12.
  induction addrs as [ | address addrs IH]; intros x a b Hx;
    cbn [map fold_left].
  - exact Hx.
  - apply IH. rewrite Hg12. apply feed_linear; auto.
Qed.

End Linearity.

Lemma get_value_U8_range binary_data address :
  0 <= get_value MemAccessU8 binary_data address < 256.
Proof.
  cbn [get_value MemAccessU8].
  pose proof (Byte.to_N_bounded (binary_data address)). lia.
Qed.

Lemma mask_lxor n x a b :
  0 <= n ->
  agree n x (Z.lxor a b) ->
  Z.land x (2 ^ n - 1)
  = Z.lxor (Z.land a (2 ^ n - 1)) (Z.land b (2 ^ n - 1)).
Proof.
  intros Hn Hx. rewrite (agree_mask n _ _ Hn Hx).
  apply Z.bits_inj'. intros i Hi.
  rewrite Z.lxor_spec, !Z.land_spec, Z.lxor_spec.
  destruct (Z.testbit a i), (Z.testbit b i), (Z.testbit (2 ^ n - 1) i);
    reflexivity.
Qed.

(** X17: without [final_xor], the checksum is linear over GF(2) in the
    seed and the data together: for a width in {8, 16, 32} and a range of
    at most 2^53 bytes, the checksum
    of the bytewise XOR of two images with the XOR of two seeds is the
    XOR of the two checksums, for either value of [reverse_input]. *)
Theorem checksum_is_linear image1 image2 start_address end_address
    polynomial bit_width seed1 seed2 reverse_input reverse_output :
  valid_width bit_width ->
  Z.abs (end_address - start_address) <= 2 ^ 53 ->
  exists checksum1 checksum2,
    result (calc_checksum image1 start_address end_address polynomial
              bit_width seed1 reverse_input reverse_output false)
    = Returned (OK, checksum1)
    /\ result (calc_checksum image2 start_address end_address polynomial
                 bit_width seed2 reverse_input reverse_output false)
       = Returned (OK, checksum2)
    /\ result (calc_checksum (xor_image image1 image2) start_address
                 end_address polynomial bit_width (Z.lxor seed1 seed2)
                 reverse_input reverse_output false)
       = Returned (OK, Z.lxor checksum1 checksum2).
Proof.
  intros Hwidth Hrange. pose proof (valid_width_pos _ Hwidth) as Hpos.
  unfold result. rewrite !calc_checksum_valid by assumption. cbn [fst].
  do 2 eexists. split; [reflexivity | ]. split; [reflexivity | ].
  do 2 f_equal. unfold finish.
  apply mask_lxor; [lia | ].
  unfold register, range_bytes.
  apply fold_feed_linear.
  - assumption.
  - apply get_value_U8_range.
  - apply get_value_U8_range.
  - intros address. unfold xor_image.
    change (get_value MemAccessU8 ?img ?a)
      with (Z.of_N (Byte.to_N (img a))) at 1.
    apply byte_of_Z_value.
    apply lxor_byte_range; apply get_value_U8_range.
  - intros i Hi. reflexivity.
Qed.

Lemma checksum_is_linear_witness :
  valid_width 16 /\ Z.abs (3 - 0) <= 2 ^ 53
  /\ exists checksum1 checksum2,
       result (calc_checksum (image_of [x31; x32; x33]) 0 3 0x1021 16
                 0xFFFF true false false)
       = Returned (OK, checksum1)
       /\ result (calc_checksum (image_of [x0f; xf0; x55]) 0 3 0x1021 16
                    0x1234 true false false)
          = Returned (OK, checksum2)
       /\ result (calc_checksum
                    (xor_image (image_of [x31; x32; x33])
                       (image_of [x0f; xf0; x55]))
                    0 3 0x1021 16 (Z.lxor 0xFFFF 0x1234) true false false)
          = Returned (OK, Z.lxor checksum1 checksum2).
Proof.
  split; [right; left; reflexivity | ].
  split; [discriminate | ].
  apply checksum_is_linear; [right; left; reflexivity | discriminate].
Defined.

(** ** The float of line 73 *)

(** X18: for a width outside {8, 16, 32} and a range the true division
    of line 73 does not overflow on, [calc_checksum] returns the error
    status with the result 0, and the read log is unchanged: no byte of
    the image has been read. *)
Theorem invalid_width_error_before_read binary_data start_address
    end_address polynomial bit_width seed reverse_input reverse_output
    final_xor log :
  bit_width <> 8 -> bit_width <> 16 -> bit_width <> 32 ->
  Z.abs (end_address - start_address) < PyFloat.overflow_bound ->
  calc_checksum binary_data start_address end_address polynomial bit_width
    seed reverse_input reverse_output final_xor log
  = (Returned (ERROR_CRC_CACLULATION, 0), log).
Proof.
  intros H8 H16 H32 Hrange. apply calc_checksum_invalid.
  - apply no_overflow_below_bound. exact Hrange.
  - unfold valid_width. tauto.
Qed.

Lemma invalid_width_error_before_read_witness :
  12 <> 8 /\ 12 <> 16 /\ 12 <> 32
  /\ Z.abs (2 - 0) < PyFloat.overflow_bound
  /\ calc_checksum (image_of [x01; x02]) 0 2 0x07 12 0 false false false []
     = (Returned (ERROR_CRC_CACLULATION, 0), []).
Proof.
  split; [discriminate | ].
  split; [discriminate | ].
  split; [discriminate | ].
  split; [reflexivity | ].
  apply invalid_width_error_before_read;
    [discriminate | discriminate | discriminate | reflexivity].
Defined.

(** X19: when the distance between the two addresses is 2^1024 - 2^970
    or more, the true division of line 73 raises [OverflowError],
    whatever the width and the other arguments are, before any byte is
    read. *)
Theorem huge_range_raises binary_data start_address end_address polynomial
    bit_width seed reverse_input reverse_output final_xor log :
  PyFloat.overflow_bound <= Z.abs (end_address - start_address) ->
  calc_checksum binary_data start_address end_address polynomial bit_width
    seed reverse_input reverse_output final_xor log
  = (Raised OverflowError, log).
Proof.
  intros Hrange. apply calc_checksum_overflow.
  unfold range_overflows. apply Z.leb_le. exact Hrange.
Qed.

Lemma huge_range_raises_witness :
  PyFloat.overflow_bound <= Z.abs (0 - 10 ^ 400)
  /\ calc_checksum (image_of [x01; x02]) (10 ^ 400) 0 0x04C11DB7 32 0
       false false false []
     = (Raised OverflowError, []).
Proof.
  assert (Hhuge : PyFloat.overflow_bound <= Z.abs (0 - 10 ^ 400)).
  { apply Z.leb_le. vm_compute. reflexivity. }
  split; [exact Hhuge | ].
  apply huge_range_raises. exact Hhuge.
Defined.

(** X20: the float cannot hold 2^53 + 1: on a range of 2^53 + 1 bytes
    the loop makes 2^53 passes, and [calc_checksum] gives what it gives
    on the range without its last byte, which is not read. *)
Theorem float_counter_skips_last_byte binary_data start_address polynomial
    bit_width seed reverse_input reverse_output final_xor log :
  valid_width bit_width ->
  calc_checksum binary_data start_address (start_address + 2 ^ 53 + 1)
    polynomial bit_width seed reverse_input reverse_output final_xor log
  = calc_checksum binary_data start_address (start_address + 2 ^ 53)
      polynomial bit_width seed reverse_input reverse_output final_xor log.
Proof.
  intros Hwidth.
  assert (Hlong : range_passes start_address (start_address + 2 ^ 53 + 1)
                  = (Z.to_nat (2 ^ 53), true)).
  { unfold range_passes.
    replace (start_address + 2 ^ 53 + 1 - start_address) with (2 ^ 53 + 1)
      by lia.
    replace (PyFloat.nearest (2 ^ 53 + 1)) with (2 ^ 53)
      by (vm_compute; reflexivity).
    apply float_passes_exact; lia. }
  assert (Hshort : range_passes start_address (start_address + 2 ^ 53)
                   = (Z.to_nat (2 ^ 53), true)).
  { rewrite range_passes_exact by lia. f_equal. f_equal. lia. }
  assert (Hover_long : range_overflows start_address
                         (start_address + 2 ^ 53 + 1) = false).
  { apply no_overflow_below_bound.
    replace (start_address + 2 ^ 53 + 1 - start_address) with (2 ^ 53 + 1)
      by lia.
    reflexivity. }
  assert (Hover_short : range_overflows start_address
                          (start_address + 2 ^ 53) = false).
  { apply exact_range_no_overflow. lia. }
  rewrite !calc_checksum_run by assumption.
  rewrite Hlong, Hshort. reflexivity.
Qed.

Lemma float_counter_skips_last_byte_witness :
  valid_width 8
  /\ calc_checksum (image_of [x01; x02]) 0 (0 + 2 ^ 53 + 1) 0x07 8 0
       false false false []
     = calc_checksum (image_of [x01; x02]) 0 (0 + 2 ^ 53) 0x07 8 0
         false false false [].
Proof.
  split; [left; reflexivity | ].
  apply float_counter_skips_last_byte. left; reflexivity.
Defined.

(** X21: when the float of the range length is positive and subtracting
    1 leaves it unchanged, as for 2^53 + 4 bytes, the loop never exits:
    for a width in {8, 16, 32} [calc_checksum] does not return. *)
Theorem float_counter_never_exits binary_data start_address end_address
    polynomial bit_width seed reverse_input reverse_output final_xor log :
  valid_width bit_width ->
  Z.abs (end_address - start_address) < PyFloat.overflow_bound ->
  0 < PyFloat.nearest (end_address - start_address) ->
  PyFloat.sub_one (PyFloat.nearest (end_address - start_address))
  = PyFloat.nearest (end_address - start_address) ->
  fst (calc_checksum binary_data start_address end_address polynomial
         bit_width seed reverse_input reverse_output final_xor log)
  = Diverges.
Proof.
  intros Hwidth Hrange Hpos Hstuck.
  rewrite calc_checksum_run
    by (try apply no_overflow_below_bound; assumption).
  unfold range_passes. rewrite float_passes_stuck by assumption.
  reflexivity.
Qed.

Lemma float_counter_never_exits_witness :
  valid_width 32
  /\ Z.abs (2 ^ 53 + 4 - 0) < PyFloat.overflow_bound
  /\ 0 < PyFloat.nearest (2 ^ 53 + 4 - 0)
  /\ PyFloat.sub_one (PyFloat.nearest (2 ^ 53 + 4 - 0))
     = PyFloat.nearest (2 ^ 53 + 4 - 0)
  /\ fst (calc_checksum (image_of [x01; x02]) 0 (2 ^ 53 + 4) 0x04C11DB7 32 0
            false false false [])
     = Diverges.
Proof.
  split; [right; right; reflexivity | ].
  split; [reflexivity | ].
  split; [reflexivity | ].
  split; [vm_compute; reflexivity | ].
  apply float_counter_never_exits;
    [right; right; reflexivity | reflexivity | reflexivity
     | vm_compute; reflexivity].
Defined.
